(** * httpstan: the socket writer ([httpstan/socket_writer.hpp])

    [stan::callbacks::socket_writer] receives the callbacks of a Stan
    service function and forwards each of them, according to the role the
    instance plays ([message_prefix_]), as a [WriterMessage] on a socket.

    The class is embedded as a record for the object, one function per
    overload of [operator()], and an [outcome] that tells a normal return
    from a thrown [std::runtime_error] and from an unchecked read past the
    end of a vector. *)

From Stdlib Require Import List String Ascii Bool Arith Lia Sorted.
From Stdlib Require Import PrimFloat.
From Stdlib Require Import ZArith.
Import ListNotations.

Open Scope string_scope.
Open Scope list_scope.

(** ** The wire message ([callbacks_writer.pb.h]) *)

Module Wire.

(** Modelled from the spec: the generated header [callbacks_writer.pb.h] is
    not part of the sources. A [WriterMessage] carries a topic among
    INITIALIZATION, SAMPLE and DIAGNOSTIC and a sequence of features; a
    feature has an optional name and one payload, a list of byte strings or
    a list of doubles. The constructors keep the names the source uses. *)
Inductive WriterMessage_Topic : Type :=
| WriterMessage_Topic_INITIALIZATION
| WriterMessage_Topic_SAMPLE
| WriterMessage_Topic_DIAGNOSTIC.

Definition WriterMessage_BytesList : Type := list string.
Definition WriterMessage_DoubleList : Type := list float.

Inductive payload : Type :=
| payload_not_set
| bytes_list (l : WriterMessage_BytesList)
| double_list (l : WriterMessage_DoubleList).

Record WriterMessage_Feature : Type := mkFeature {
  name : option string;
  kind : payload
}.

Record WriterMessage : Type := mkMessage {
  topic : option WriterMessage_Topic;
  feature : list WriterMessage_Feature
}.

(** A default-constructed message and feature, and the setters the writer
    calls on them. *)
Definition new_message : WriterMessage := mkMessage None [].
Definition new_feature : WriterMessage_Feature := mkFeature None payload_not_set.

Definition set_topic (t : WriterMessage_Topic) (m : WriterMessage) : WriterMessage :=
  mkMessage (Some t) (feature m).

(** [add_feature] appends; the source then fills the feature through the
    pointer it got back, which is the same as appending the filled one. *)
Definition add_feature (f : WriterMessage_Feature) (m : WriterMessage) : WriterMessage :=
  mkMessage (topic m) (feature m ++ [f]).

Definition set_name (s : string) (f : WriterMessage_Feature) : WriterMessage_Feature :=
  mkFeature (Some s) (kind f).

Definition set_allocated_bytes_list (l : WriterMessage_BytesList)
    (f : WriterMessage_Feature) : WriterMessage_Feature :=
  mkFeature (name f) (bytes_list l).

Definition set_allocated_double_list (l : WriterMessage_DoubleList)
    (f : WriterMessage_Feature) : WriterMessage_Feature :=
  mkFeature (name f) (double_list l).

(** [add_value] on either list appends one element. *)
Definition add_value {A : Type} (x : A) (l : list A) : list A := l ++ [x].

End Wire.

Import Wire.

(** ** The object *)

(** Enum used by the sample writer only. *)
Inductive ProcessingAdaptationState : Type :=
| BEFORE_PROCESSING_ADAPTATION
| PROCESSING_ADAPTATION
| FINAL_ADAPTATION_MESSAGE
| AFTER_PROCESSING_ADAPTATION.

(** The enumerators' values, in declaration order. *)
Definition state_rank (s : ProcessingAdaptationState) : nat :=
  match s with
  | BEFORE_PROCESSING_ADAPTATION => 0
  | PROCESSING_ADAPTATION => 1
  | FINAL_ADAPTATION_MESSAGE => 2
  | AFTER_PROCESSING_ADAPTATION => 3
  end.

Definition state_le (a b : ProcessingAdaptationState) : Prop :=
  state_rank a <= state_rank b.

Definition state_eqb (a b : ProcessingAdaptationState) : bool :=
  Nat.eqb (state_rank a) (state_rank b).

(** The members of [socket_writer]. The socket is the sequence of messages
    handed to [send_message] so far, oldest first: each of them is one
    length-prefixed frame on the wire, so the socket has received no byte
    exactly when this list has not grown. *)
Record socket_writer : Type := mkWriter {
  socket : list WriterMessage;
  message_prefix_ : string;
  diagnostic_fields_ : list string;
  sample_fields_ : list string;
  processing_adaptation_state_ : ProcessingAdaptationState
}.

(** The constructor: connects the socket, stores the prefix; the other
    members take their default values. *)
Definition socket_writer_new (message_prefix : string) : socket_writer :=
  mkWriter [] message_prefix [] [] BEFORE_PROCESSING_ADAPTATION.

Definition with_diagnostic_fields (l : list string) (w : socket_writer) : socket_writer :=
  mkWriter (socket w) (message_prefix_ w) l (sample_fields_ w)
           (processing_adaptation_state_ w).

Definition with_sample_fields (l : list string) (w : socket_writer) : socket_writer :=
  mkWriter (socket w) (message_prefix_ w) (diagnostic_fields_ w) l
           (processing_adaptation_state_ w).

Definition with_state (s : ProcessingAdaptationState) (w : socket_writer) : socket_writer :=
  mkWriter (socket w) (message_prefix_ w) (diagnostic_fields_ w) (sample_fields_ w) s.

(** [send_message]: one frame more on the socket. *)
Definition send_message (m : WriterMessage) (w : socket_writer) : socket_writer :=
  mkWriter (socket w ++ [m]) (message_prefix_ w) (diagnostic_fields_ w)
           (sample_fields_ w) (processing_adaptation_state_ w).

(** How a call of [operator()] ends. [Thrown] carries the text of the
    [std::runtime_error] and the object as the throw leaves it.
    [OutOfRange] is the unchecked read [state[i]] with [i] past the end of
    the vector: the language gives it no meaning, and it is no exception. *)
Inductive outcome : Type :=
| Returned (w : socket_writer)
| Thrown (what : string) (w : socket_writer)
| OutOfRange.

(** [std::vector::empty] and the loop [push_back]ing every element. *)
Definition empty {A : Type} (l : list A) : bool :=
  match l with
  | [] => true
  | _ :: _ => false
  end.

Definition push_back_all {A : Type} (src dst : list A) : list A :=
  fold_left (fun acc x => acc ++ [x]) src dst.

(** [std::string::rfind (needle, pos)]: the last position at most [pos] at
    which [needle] occurs in the string, [None] for [npos]. *)
Fixpoint drop (n : nat) (s : string) : string :=
  match n, s with
  | 0, _ => s
  | S n', String _ s' => drop n' s'
  | S _, EmptyString => EmptyString
  end.

Fixpoint rfind_down (needle hay : string) (i : nat) : option nat :=
  if String.prefix needle (drop i hay) then Some i
  else match i with
       | 0 => None
       | S j => rfind_down needle hay j
       end.

Definition rfind (hay needle : string) (pos : nat) : option nat :=
  if Nat.ltb (String.length hay) (String.length needle) then None
  else rfind_down needle hay (Nat.min pos (String.length hay - String.length needle)).

Definition is_zero (r : option nat) : bool :=
  match r with
  | Some 0 => true
  | _ => false
  end.

(** ** The four overloads of [operator()] *)

(** The loop of the diagnostic and the sample writer over the indices
    [0 .. fields.size() - 1]: one feature per index, named [fields[i]] and
    holding the one value [state[i]]. [fields[i]] is in range by the loop
    bound; [state[i]] is read unchecked. *)
Definition named_feature (fields : list string) (v : float) (i : nat) : WriterMessage_Feature :=
  set_allocated_double_list (add_value v [])
    (set_name (nth i fields "") new_feature).

(** One turn of the loop: [None] once a read went past the end. *)
Definition loop_body (fields : list string) (state : list float)
    (acc : option WriterMessage) (i : nat) : option WriterMessage :=
  match acc with
  | None => None
  | Some m' =>
      match nth_error state i with
      | None => None
      | Some v => Some (add_feature (named_feature fields v i) m')
      end
  end.

Definition add_named_features (fields : list string) (state : list float)
    (m : WriterMessage) : option WriterMessage :=
  fold_left (loop_body fields state) (seq 0 (List.length fields)) (Some m).

(** A message with one unnamed feature. *)
Definition bytes_message (t : WriterMessage_Topic) (values : list string) : WriterMessage :=
  add_feature
    (set_allocated_bytes_list (fold_left (fun l x => add_value x l) values []) new_feature)
    (set_topic t new_message).

Definition doubles_message (t : WriterMessage_Topic) (values : list float) : WriterMessage :=
  add_feature
    (set_allocated_double_list (fold_left (fun l x => add_value x l) values []) new_feature)
    (set_topic t new_message).

(** [operator()(const std::vector<std::string> &names)] *)
Definition operator_call_names (w : socket_writer) (names : list string) : outcome :=
  if message_prefix_ w =? "diagnostic_writer:" then
    if empty (diagnostic_fields_ w) then
      Returned (with_diagnostic_fields (push_back_all names (diagnostic_fields_ w)) w)
    else
      Returned (send_message (bytes_message WriterMessage_Topic_DIAGNOSTIC names) w)
  else if message_prefix_ w =? "init_writer:" then
    Thrown "Unexpected string vector for init writer." w
  else if message_prefix_ w =? "sample_writer:" then
    if negb (empty (sample_fields_ w)) then
      Thrown "Unexpected string vector in sample writer after column header." w
    else
      Returned (with_sample_fields (push_back_all names (sample_fields_ w)) w)
  else Returned w.

(** [operator()(const std::vector<double> &state)] *)
Definition operator_call_state (w : socket_writer) (state : list float) : outcome :=
  if message_prefix_ w =? "diagnostic_writer:" then
    if empty (diagnostic_fields_ w) then
      Thrown "diagnostic fields must be set before receiving values" w
    else
      match add_named_features (diagnostic_fields_ w) state
              (set_topic WriterMessage_Topic_DIAGNOSTIC new_message) with
      | None => OutOfRange
      | Some m => Returned (send_message m w)
      end
  else if message_prefix_ w =? "init_writer:" then
    Returned (send_message (doubles_message WriterMessage_Topic_INITIALIZATION state) w)
  else if message_prefix_ w =? "sample_writer:" then
    if empty (sample_fields_ w) then
      Thrown "Sample fields should be populated before sample writer writes a vector of doubles." w
    else if state_eqb (processing_adaptation_state_ w) PROCESSING_ADAPTATION
            || state_eqb (processing_adaptation_state_ w) FINAL_ADAPTATION_MESSAGE then
      Thrown "Adaptation should have completed before sample writer writes a vector of doubles." w
    else
      match add_named_features (sample_fields_ w) state
              (set_topic WriterMessage_Topic_SAMPLE new_message) with
      | None => OutOfRange
      | Some m => Returned (send_message m w)
      end
  else Returned w.

(** [operator()()] *)
Definition operator_call (w : socket_writer) : outcome := Returned w.

(** The state machine of the sample writer, run on every message before it
    is forwarded. *)
Definition adaptation_step (s : ProcessingAdaptationState) (message : string)
    : ProcessingAdaptationState :=
  if state_eqb s BEFORE_PROCESSING_ADAPTATION then
    if is_zero (rfind message "Adaptation terminated" 0)
    then PROCESSING_ADAPTATION else s
  else if state_eqb s PROCESSING_ADAPTATION then
    if is_zero (rfind message "Diagonal elements of inverse mass matrix" 0)
    then FINAL_ADAPTATION_MESSAGE else s
  else if state_eqb s FINAL_ADAPTATION_MESSAGE then
    AFTER_PROCESSING_ADAPTATION
  else s.

(** [operator()(const std::string &message)] *)
Definition operator_call_message (w : socket_writer) (message : string) : outcome :=
  if message_prefix_ w =? "diagnostic_writer:" then
    Returned (send_message (bytes_message WriterMessage_Topic_DIAGNOSTIC [message]) w)
  else if message_prefix_ w =? "init_writer:" then
    Thrown "Unexpected string vector for init writer." w
  else if message_prefix_ w =? "sample_writer:" then
    Returned
      (send_message (bytes_message WriterMessage_Topic_SAMPLE [message])
         (with_state (adaptation_step (processing_adaptation_state_ w) message) w))
  else Returned w.

(** ** Events and runs *)

(** The four callbacks as one type of event, and the dispatch on it. *)
Inductive event : Type :=
| name_vector (names : list string)
| value_vector (state : list float)
| text_line (message : string)
| empty_signal.

Definition deliver (w : socket_writer) (e : event) : outcome :=
  match e with
  | name_vector names => operator_call_names w names
  | value_vector state => operator_call_state w state
  | text_line message => operator_call_message w message
  | empty_signal => operator_call w
  end.

(** The object a call leaves behind: a throw leaves the object alive. *)
Definition object_after (o : outcome) : option socket_writer :=
  match o with
  | Returned w => Some w
  | Thrown _ w => Some w
  | OutOfRange => None
  end.

(** The object after a sequence of events, delivered one after the other. *)
Fixpoint run (w : socket_writer) (events : list event) : option socket_writer :=
  match events with
  | [] => Some w
  | e :: rest =>
      match object_after (deliver w e) with
      | Some w' => run w' rest
      | None => None
      end
  end.

Definition is_name_vector (e : event) : bool :=
  match e with
  | name_vector _ => true
  | _ => false
  end.

(** The role tag is one of the three strings the overloads compare it with. *)
Definition recognised (w : socket_writer) : bool :=
  (message_prefix_ w =? "diagnostic_writer:")
  || (message_prefix_ w =? "init_writer:")
  || (message_prefix_ w =? "sample_writer:").

(** The adaptation states a writer goes through while it is fed text lines:
    the state before the first line, then the state after each line that
    returns. *)
Fixpoint adaptation_trace (w : socket_writer) (messages : list string)
    : list ProcessingAdaptationState :=
  processing_adaptation_state_ w ::
  match messages with
  | [] => []
  | m :: rest =>
      match operator_call_message w m with
      | Returned w' => adaptation_trace w' rest
      | _ => []
      end
  end.

(** ** The transition table of the specification

    The table is stated on its own, in the specification's words, and
    compared with [adaptation_step] below. A text begins with a prefix when
    it is the prefix followed by some rest: literal, case-sensitive and
    anchored at position 0. *)
Definition begins_with (p m : string) : Prop :=
  exists rest : string, m = String.append p rest.

Inductive transition_table
  : ProcessingAdaptationState -> string -> ProcessingAdaptationState -> Prop :=
| before_terminated (m : string) :
    begins_with "Adaptation terminated" m ->
    transition_table BEFORE_PROCESSING_ADAPTATION m PROCESSING_ADAPTATION
| before_otherwise (m : string) :
    ~ begins_with "Adaptation terminated" m ->
    transition_table BEFORE_PROCESSING_ADAPTATION m BEFORE_PROCESSING_ADAPTATION
| processing_diagonal (m : string) :
    begins_with "Diagonal elements of inverse mass matrix" m ->
    transition_table PROCESSING_ADAPTATION m FINAL_ADAPTATION_MESSAGE
| processing_otherwise (m : string) :
    ~ begins_with "Diagonal elements of inverse mass matrix" m ->
    transition_table PROCESSING_ADAPTATION m PROCESSING_ADAPTATION
| final_message_any (m : string) :
    transition_table FINAL_ADAPTATION_MESSAGE m AFTER_PROCESSING_ADAPTATION
| after_any (m : string) :
    transition_table AFTER_PROCESSING_ADAPTATION m AFTER_PROCESSING_ADAPTATION.

(** The features the specification asks of a value vector: header and values
    zipped by index, one single-element list of doubles per field. *)
Definition zipped_features (header : list string) (values : list float)
    : list WriterMessage_Feature :=
  map (fun hv => mkFeature (Some (fst hv)) (double_list [snd hv])) (combine header values).

(** The specification's vocabulary for an instance: its header is the field
    list of its role, and its topic the one its role emits. *)
Definition header (w : socket_writer) : list string :=
  if message_prefix_ w =? "diagnostic_writer:" then diagnostic_fields_ w
  else if message_prefix_ w =? "sample_writer:" then sample_fields_ w
  else [].

Definition role_topic (w : socket_writer) : option WriterMessage_Topic :=
  if message_prefix_ w =? "diagnostic_writer:" then Some WriterMessage_Topic_DIAGNOSTIC
  else if message_prefix_ w =? "init_writer:" then Some WriterMessage_Topic_INITIALIZATION
  else if message_prefix_ w =? "sample_writer:" then Some WriterMessage_Topic_SAMPLE
  else None.

(** The sample writer is in the middle of the adaptation report. *)
Definition adapting (w : socket_writer) : Prop :=
  processing_adaptation_state_ w = PROCESSING_ADAPTATION
  \/ processing_adaptation_state_ w = FINAL_ADAPTATION_MESSAGE.

(** ** Framing ([send_message])

    [send_message] fills one buffer with the length of the serialized
    message, written by [WriteVarint32], followed by the serialized message,
    and hands the buffer to [socket.send]. Bytes are integers below 256. *)

(** Modelled from the spec: [CodedOutputStream::WriteVarint32] belongs to
    the protobuf library, which is not part of the sources. The length is
    written as a base-128 varint, little-endian, the high bit of a byte
    telling that another byte follows. A 32-bit value takes at most five
    bytes, which is the fuel [WriteVarint32] gives the loop. *)
Fixpoint WriteVarint (fuel : nat) (value : Z) : list Z :=
  match fuel with
  | O => []
  | S fuel' =>
      if (128 <=? value)%Z
      then Z.land (Z.lor value 128) 255 :: WriteVarint fuel' (Z.shiftr value 7)
      else [value]
  end.

Definition WriteVarint32 (value : Z) : list Z := WriteVarint 5 value.

(** Modelled from the spec: the serialization of a message belongs to the
    generated message class, which is not part of the sources; it is a
    parameter here, and [ByteSizeLong] is the number of bytes it writes.
    The length is passed to [WriteVarint32] as a 32-bit unsigned integer. *)
Definition ByteSizeLong (SerializeToCodedStream : WriterMessage -> list Z)
    (m : WriterMessage) : Z :=
  Z.of_nat (List.length (SerializeToCodedStream m)).

Definition stream_buffer (SerializeToCodedStream : WriterMessage -> list Z)
    (m : WriterMessage) : list Z :=
  WriteVarint32 (ByteSizeLong SerializeToCodedStream m mod 2 ^ 32)
  ++ SerializeToCodedStream m.

(** The bytes handed to [socket.send] over the life of a writer: the buffers
    of the messages sent, one after the other. *)
Definition handed_to_send (SerializeToCodedStream : WriterMessage -> list Z)
    (w : socket_writer) : list Z :=
  List.concat (map (stream_buffer SerializeToCodedStream) (socket w)).

(** Modelled from the spec: the reader is the supervising process at the
    other end of the socket, which is not part of the sources. It reads the
    varint, then that many bytes: one record. *)
Fixpoint read_varint (fuel : nat) (bytes : list Z) : option (Z * list Z) :=
  match fuel, bytes with
  | S fuel', b :: rest =>
      if (128 <=? b)%Z then
        match read_varint fuel' rest with
        | Some (v, rest') => Some (Z.land b 127 + Z.shiftl v 7, rest')%Z
        | None => None
        end
      else Some (b, rest)
  | _, _ => None
  end.

Definition read_record (bytes : list Z) : option (list Z * list Z) :=
  match read_varint 5 bytes with
  | Some (L, rest) =>
      if (Z.of_nat (List.length rest) <? L)%Z then None
      else Some (firstn (Z.to_nat L) rest, skipn (Z.to_nat L) rest)
  | None => None
  end.

(** All the records of a stream, in order; [None] when the stream does not
    end at the end of a record. The fuel bounds the number of records. *)
Fixpoint read_records (fuel : nat) (bytes : list Z) : option (list (list Z)) :=
  match bytes with
  | [] => Some []
  | _ :: _ =>
      match fuel with
      | O => None
      | S fuel' =>
          match read_record bytes with
          | Some (body, rest) =>
              match read_records fuel' rest with
              | Some bodies => Some (body :: bodies)
              | None => None
              end
          | None => None
          end
      end
  end.

(** ** A send that fails

    [socket.send], the last statement of [send_message], throws
    [boost::system::system_error], a [std::runtime_error], when the write
    fails; the exception leaves [send_message] and the overload that called
    it, and nothing has been put on the socket. The overloads above are the
    calls whose send succeeds. Below are the same overloads with the send
    allowed to fail: [sent] tells whether the send of the call, if the call
    gets as far as it, succeeds. *)
Inductive call_end : Type :=
| returns (w : socket_writer)
| throws_runtime_error (what : string) (w : socket_writer)
| throws_system_error (w : socket_writer)
| reads_out_of_range.

Definition try_send_message (sent : bool) (m : WriterMessage) (w : socket_writer)
    : call_end :=
  if sent then returns (send_message m w) else throws_system_error w.

Definition operator_call_names_sending (sent : bool) (w : socket_writer)
    (names : list string) : call_end :=
  if message_prefix_ w =? "diagnostic_writer:" then
    if empty (diagnostic_fields_ w) then
      returns (with_diagnostic_fields (push_back_all names (diagnostic_fields_ w)) w)
    else
      try_send_message sent (bytes_message WriterMessage_Topic_DIAGNOSTIC names) w
  else if message_prefix_ w =? "init_writer:" then
    throws_runtime_error "Unexpected string vector for init writer." w
  else if message_prefix_ w =? "sample_writer:" then
    if negb (empty (sample_fields_ w)) then
      throws_runtime_error
        "Unexpected string vector in sample writer after column header." w
    else
      returns (with_sample_fields (push_back_all names (sample_fields_ w)) w)
  else returns w.

Definition operator_call_state_sending (sent : bool) (w : socket_writer)
    (state : list float) : call_end :=
  if message_prefix_ w =? "diagnostic_writer:" then
    if empty (diagnostic_fields_ w) then
      throws_runtime_error "diagnostic fields must be set before receiving values" w
    else
      match add_named_features (diagnostic_fields_ w) state
              (set_topic WriterMessage_Topic_DIAGNOSTIC new_message) with
      | None => reads_out_of_range
      | Some m => try_send_message sent m w
      end
  else if message_prefix_ w =? "init_writer:" then
    try_send_message sent (doubles_message WriterMessage_Topic_INITIALIZATION state) w
  else if message_prefix_ w =? "sample_writer:" then
    if empty (sample_fields_ w) then
      throws_runtime_error
        "Sample fields should be populated before sample writer writes a vector of doubles." w
    else if state_eqb (processing_adaptation_state_ w) PROCESSING_ADAPTATION
            || state_eqb (processing_adaptation_state_ w) FINAL_ADAPTATION_MESSAGE then
      throws_runtime_error
        "Adaptation should have completed before sample writer writes a vector of doubles." w
    else
      match add_named_features (sample_fields_ w) state
              (set_topic WriterMessage_Topic_SAMPLE new_message) with
      | None => reads_out_of_range
      | Some m => try_send_message sent m w
      end
  else returns w.

Definition operator_call_sending (w : socket_writer) : call_end := returns w.

Definition operator_call_message_sending (sent : bool) (w : socket_writer)
    (message : string) : call_end :=
  if message_prefix_ w =? "diagnostic_writer:" then
    try_send_message sent (bytes_message WriterMessage_Topic_DIAGNOSTIC [message]) w
  else if message_prefix_ w =? "init_writer:" then
    throws_runtime_error "Unexpected string vector for init writer." w
  else if message_prefix_ w =? "sample_writer:" then
    try_send_message sent (bytes_message WriterMessage_Topic_SAMPLE [message])
      (with_state (adaptation_step (processing_adaptation_state_ w) message) w)
  else returns w.

Definition deliver_sending (sent : bool) (w : socket_writer) (e : event) : call_end :=
  match e with
  | name_vector names => operator_call_names_sending sent w names
  | value_vector state => operator_call_state_sending sent w state
  | text_line message => operator_call_message_sending sent w message
  | empty_signal => operator_call_sending w
  end.

(** The object a call leaves behind, and the object after a sequence of
    events each given with the fate of its send. *)
Definition object_left (c : call_end) : option socket_writer :=
  match c with
  | returns w => Some w
  | throws_runtime_error _ w => Some w
  | throws_system_error w => Some w
  | reads_out_of_range => None
  end.

Fixpoint run_sending (w : socket_writer) (events : list (event * bool))
    : option socket_writer :=
  match events with
  | [] => Some w
  | (e, sent) :: rest =>
      match object_left (deliver_sending sent w e) with
      | Some w' => run_sending w' rest
      | None => None
      end
  end.

(** * Properties *)

(** ** Strings *)

Lemma prefix_begins_with (p m : string) :
  String.prefix p m = true <-> begins_with p m.
Proof.
  unfold begins_with. revert p.
  induction m as [|d m IH]; intros [|c p]; simpl.
  - split; [intros _; exists EmptyString; reflexivity | reflexivity].
  - split; [discriminate | intros [rest H]; discriminate].
  - split; [intros _; exists (String d m); reflexivity | reflexivity].
  - destruct (Ascii.ascii_dec c d) as [->|ne].
    + rewrite IH. split; intros [rest H]; exists rest.
      * now rewrite H.
      * now inversion H.
    + split; [discriminate | intros [rest H]; inversion H; congruence].
Qed.

Lemma prefix_length (p m : string) :
  String.prefix p m = true -> String.length p <= String.length m.
Proof.
  intros H. apply prefix_begins_with in H. destruct H as [rest ->].
  induction p as [|c p IH]; simpl; lia.
Qed.

(** [m.rfind (p, 0) == 0] is the test that [m] starts with [p]. *)
Lemma rfind_zero_prefix (m p : string) :
  is_zero (rfind m p 0) = String.prefix p m.
Proof.
  unfold rfind.
  destruct (Nat.ltb (String.length m) (String.length p)) eqn:Hlt.
  - apply Nat.ltb_lt in Hlt. simpl.
    destruct (String.prefix p m) eqn:Hp; [|reflexivity].
    apply prefix_length in Hp. lia.
  - rewrite Nat.min_0_l. simpl.
    destruct (String.prefix p m); reflexivity.
Qed.

Lemma rfind_zero_begins_with (m p : string) :
  is_zero (rfind m p 0) = true <-> begins_with p m.
Proof. rewrite rfind_zero_prefix. apply prefix_begins_with. Qed.

(** ** The adaptation machine *)

Ltac by_role H :=
  unfold operator_call_names, operator_call_state, operator_call_message, operator_call;
  rewrite H; simpl.

Lemma adaptation_step_table (s : ProcessingAdaptationState) (m : string) :
  transition_table s m (adaptation_step s m).
Proof.
  unfold adaptation_step.
  destruct s; simpl.
  - destruct (is_zero (rfind m "Adaptation terminated" 0)) eqn:E.
    + apply before_terminated. now apply rfind_zero_begins_with.
    + apply before_otherwise. intros B.
      apply rfind_zero_begins_with in B. congruence.
  - destruct (is_zero (rfind m "Diagonal elements of inverse mass matrix" 0)) eqn:E.
    + apply processing_diagonal. now apply rfind_zero_begins_with.
    + apply processing_otherwise. intros B.
      apply rfind_zero_begins_with in B. congruence.
  - constructor.
  - constructor.
Qed.

Lemma transition_table_functional (s s1 s2 : ProcessingAdaptationState) (m : string) :
  transition_table s m s1 -> transition_table s m s2 -> s1 = s2.
Proof.
  intros T1 T2.
  inversion T1; subst; inversion T2; subst; try reflexivity; contradiction.
Qed.

Lemma state_le_refl (s : ProcessingAdaptationState) : state_le s s.
Proof. unfold state_le. lia. Qed.

Lemma state_le_trans (a b c : ProcessingAdaptationState) :
  state_le a b -> state_le b c -> state_le a c.
Proof. unfold state_le. lia. Qed.

Lemma transition_table_advances (s s' : ProcessingAdaptationState) (m : string) :
  transition_table s m s' -> state_le s s'.
Proof. intros T. inversion T; subst; unfold state_le; simpl; lia. Qed.

Lemma sample_text_line (w : socket_writer) (m : string) :
  message_prefix_ w = "sample_writer:" ->
  operator_call_message w m =
  Returned (send_message (bytes_message WriterMessage_Topic_SAMPLE [m])
              (with_state (adaptation_step (processing_adaptation_state_ w) m) w)).
Proof. intros R. by_role R. reflexivity. Qed.

Lemma adaptation_trace_from (messages : list string) :
  forall w : socket_writer,
    message_prefix_ w = "sample_writer:" ->
    List.length (adaptation_trace w messages) = S (List.length messages)
    /\ Forall (state_le (processing_adaptation_state_ w)) (adaptation_trace w messages)
    /\ StronglySorted state_le (adaptation_trace w messages).
Proof.
  induction messages as [|m rest IH]; intros w R.
  - simpl. repeat split.
    + constructor; [apply state_le_refl | constructor].
    + constructor; constructor.
  - cbn [adaptation_trace]. rewrite (sample_text_line w m R).
    set (w' := send_message _ _).
    assert (R' : message_prefix_ w' = "sample_writer:") by exact R.
    assert (Hstep : state_le (processing_adaptation_state_ w)
                             (processing_adaptation_state_ w')).
    { apply (transition_table_advances _ _ m). apply adaptation_step_table. }
    destruct (IH w' R') as (Hlen & Hall & Hsorted).
    assert (Hall' : Forall (state_le (processing_adaptation_state_ w))
                           (adaptation_trace w' rest)).
    { eapply Forall_impl; [|exact Hall].
      intros s Hs. eapply state_le_trans; eassumption. }
    repeat split.
    + simpl. now rewrite Hlen.
    + constructor; [apply state_le_refl | exact Hall'].
    + constructor; assumption.
Qed.

Lemma adaptation_trace_after (messages : list string) :
  forall w : socket_writer,
    message_prefix_ w = "sample_writer:" ->
    processing_adaptation_state_ w = AFTER_PROCESSING_ADAPTATION ->
    Forall (eq AFTER_PROCESSING_ADAPTATION) (adaptation_trace w messages).
Proof.
  induction messages as [|m rest IH]; intros w R A.
  - simpl. constructor; [now rewrite A | constructor].
  - cbn [adaptation_trace]. rewrite (sample_text_line w m R).
    constructor; [now rewrite A|].
    apply IH; [exact R|]. simpl. now rewrite A.
Qed.

(** C1. On the sample writer the adaptation state starts at BEFORE; a text
    line always returns, and the state it leaves is the one and only state
    the specification's transition table allows from the state it found
    (PROCESSING from BEFORE iff the line begins with "Adaptation terminated",
    FINAL_MESSAGE from PROCESSING iff it begins with "Diagonal elements of
    inverse mass matrix", AFTER from FINAL_MESSAGE, AFTER from AFTER); the
    states visited over any list of text lines never decrease in the order
    BEFORE < PROCESSING < FINAL_MESSAGE < AFTER, and from AFTER on they are
    all AFTER. *)
Theorem sample_adaptation_machine_follows_table
    (w : socket_writer) (m : string) (messages : list string) :
  message_prefix_ w = "sample_writer:" ->
  processing_adaptation_state_ (socket_writer_new "sample_writer:")
    = BEFORE_PROCESSING_ADAPTATION
  /\ (exists w' : socket_writer,
        operator_call_message w m = Returned w'
        /\ message_prefix_ w' = "sample_writer:"
        /\ transition_table (processing_adaptation_state_ w) m
                            (processing_adaptation_state_ w')
        /\ forall s : ProcessingAdaptationState,
             transition_table (processing_adaptation_state_ w) m s ->
             s = processing_adaptation_state_ w')
  /\ List.length (adaptation_trace w messages) = S (List.length messages)
  /\ StronglySorted state_le (adaptation_trace w messages)
  /\ (processing_adaptation_state_ w = AFTER_PROCESSING_ADAPTATION ->
      Forall (eq AFTER_PROCESSING_ADAPTATION) (adaptation_trace w messages)).
Proof.
  intros R. split; [reflexivity|]. split.
  - eexists. split; [apply (sample_text_line w m R)|].
    split; [exact R|]. split.
    + apply adaptation_step_table.
    + intros s T. eapply transition_table_functional; [exact T|].
      apply adaptation_step_table.
  - destruct (adaptation_trace_from messages w R) as (Hlen & _ & Hsorted).
    split; [exact Hlen|]. split; [exact Hsorted|].
    intros A. now apply adaptation_trace_after.
Qed.

Lemma sample_adaptation_machine_witness :
  message_prefix_ (socket_writer_new "sample_writer:") = "sample_writer:"
  /\ StronglySorted state_le
       (adaptation_trace (socket_writer_new "sample_writer:")
          ["Adaptation terminated"; "Step size = 0.8";
           "Diagonal elements of inverse mass matrix:"; "0.961989"]).
Proof.
  split; [reflexivity|].
  apply (sample_adaptation_machine_follows_table
           (socket_writer_new "sample_writer:") "Adaptation terminated"
           ["Adaptation terminated"; "Step size = 0.8";
            "Diagonal elements of inverse mass matrix:"; "0.961989"]).
  reflexivity.
Defined.

(** The run of the sample writer's comment block: header, the adaptation
    report, then draws. *)
Example adaptation_trace_with_adaptation :
  adaptation_trace (socket_writer_new "sample_writer:")
    ["Adaptation terminated"; "Step size = 0.8";
     "Diagonal elements of inverse mass matrix:"; "0.961989"; "later"]
  = [BEFORE_PROCESSING_ADAPTATION; PROCESSING_ADAPTATION; PROCESSING_ADAPTATION;
     FINAL_ADAPTATION_MESSAGE; AFTER_PROCESSING_ADAPTATION;
     AFTER_PROCESSING_ADAPTATION].
Proof. reflexivity. Qed.

(** The match is case-sensitive and anchored at the first character. *)
Example adaptation_step_other_case :
  adaptation_step BEFORE_PROCESSING_ADAPTATION "adaptation terminated"
  = BEFORE_PROCESSING_ADAPTATION
  /\ adaptation_step BEFORE_PROCESSING_ADAPTATION " Adaptation terminated"
     = BEFORE_PROCESSING_ADAPTATION
  /\ adaptation_step BEFORE_PROCESSING_ADAPTATION "Adaptation terminated early"
     = PROCESSING_ADAPTATION.
Proof. repeat split. Qed.

(** ** Lists built by the loops *)

Lemma push_back_all_app {A : Type} (src dst : list A) :
  push_back_all src dst = dst ++ src.
Proof.
  unfold push_back_all. revert dst.
  induction src as [|x src IH]; intros dst; simpl.
  - now rewrite app_nil_r.
  - rewrite IH, <- app_assoc. reflexivity.
Qed.




Lemma combine_snoc {A B : Type} (l1 : list A) (l2 : list B) (a : A) (b : B) :
  List.length l1 = List.length l2 ->
  combine (l1 ++ [a]) (l2 ++ [b]) = combine l1 l2 ++ [(a, b)].
Proof.
  revert l2. induction l1 as [|x l1 IH]; intros [|y l2] H; simpl in *;
    try discriminate; [reflexivity|].
  f_equal. apply IH. now inversion H.
Qed.

Section NamedFeatures.

Variable fields : list string.
Variable state : list float.

Lemma loop_stuck (l : list nat) : fold_left (loop_body fields state) l None = None.
Proof. induction l as [|i l IH]; simpl; [reflexivity | exact IH]. Qed.

(** An index past the end of [state] among those the loop visits ends it
    in the unchecked read. *)
Lemma loop_out_of_range (l : list nat) (i : nat) (acc : option WriterMessage) :
  In i l -> nth_error state i = None -> fold_left (loop_body fields state) l acc = None.
Proof.
  revert acc. induction l as [|j l IH]; intros acc Hin Hi; [destruct Hin|].
  simpl. destruct Hin as [->|Hin].
  - replace (loop_body fields state acc i) with (@None WriterMessage); [apply loop_stuck|].
    unfold loop_body. destruct acc; [now rewrite Hi | reflexivity].
  - now apply IH.
Qed.

(** While the indices stay inside [state], the loop appends the features
    of the fields it has visited, in order. *)
Lemma loop_in_range (n : nat) (m : WriterMessage) :
  n <= List.length fields -> n <= List.length state ->
  fold_left (loop_body fields state) (seq 0 n) (Some m)
  = Some (mkMessage (topic m)
            (feature m ++ zipped_features (firstn n fields) (firstn n state))).
Proof.
  induction n as [|n IH]; intros Hf Hs.
  - simpl. rewrite app_nil_r. now destruct m.
  - rewrite seq_S, fold_left_app, IH by lia.
    cbn [fold_left Nat.add]. unfold loop_body.
    destruct (nth_error state n) as [v|] eqn:Hv;
      [|apply nth_error_None in Hv; lia].
    assert (Hfn : firstn (S n) fields = firstn n fields ++ [nth n fields ""]).
    { clear - Hf. revert n Hf.
      induction fields as [|x l IHl]; intros [|k] Hk; simpl in *; try lia;
        [reflexivity | f_equal; apply IHl; lia]. }
    assert (Hsn : firstn (S n) state = firstn n state ++ [v]).
    { clear - Hv. revert n Hv.
      induction state as [|x l IHl]; intros [|k] Hk; simpl in *;
        try discriminate; [now inversion Hk | f_equal; now apply IHl]. }
    rewrite Hfn, Hsn. unfold zipped_features.
    rewrite combine_snoc, map_app by (rewrite !length_firstn; lia).
    unfold add_feature, named_feature. cbn.
    now rewrite <- app_assoc.
Qed.

End NamedFeatures.

Lemma add_named_features_in_range (fields : list string) (state : list float)
    (m : WriterMessage) :
  List.length fields <= List.length state ->
  add_named_features fields state m
  = Some (mkMessage (topic m) (feature m ++ zipped_features fields state)).
Proof.
  intros H. unfold add_named_features.
  rewrite (loop_in_range fields state (List.length fields) m) by lia.
  rewrite firstn_all. unfold zipped_features.
  now rewrite <- combine_firstn_l.
Qed.

Lemma add_named_features_short (fields : list string) (state : list float)
    (m : WriterMessage) :
  List.length state < List.length fields ->
  add_named_features fields state m = None.
Proof.
  intros H. unfold add_named_features.
  apply (loop_out_of_range fields state _ (List.length state)).
  - apply in_seq. lia.
  - apply nth_error_None. lia.
Qed.



(** ** Value vectors *)

Lemma empty_nil {A : Type} (l : list A) : empty l = true <-> l = [].
Proof. destruct l; simpl; split; congruence. Qed.

Lemma empty_cons {A : Type} (l : list A) : l <> [] -> empty l = false.
Proof. destruct l; simpl; congruence. Qed.

Lemma not_adapting (w : socket_writer) :
  ~ adapting w ->
  state_eqb (processing_adaptation_state_ w) PROCESSING_ADAPTATION
  || state_eqb (processing_adaptation_state_ w) FINAL_ADAPTATION_MESSAGE = false.
Proof.
  unfold adapting. intros N.
  destruct (processing_adaptation_state_ w); simpl; try reflexivity;
    exfalso; apply N; auto.
Qed.

(** C2. On a sample writer whose header is set, a vector of doubles that
    arrives while the adaptation state is PROCESSING or FINAL_MESSAGE throws;
    the object the throw leaves is the object the call found: nothing was
    sent, header and adaptation state are as before. *)
Theorem sample_values_while_adapting_throw (w : socket_writer) (state : list float) :
  message_prefix_ w = "sample_writer:" ->
  sample_fields_ w <> [] ->
  adapting w ->
  operator_call_state w state =
  Thrown "Adaptation should have completed before sample writer writes a vector of doubles." w.
Proof.
  intros R H A. by_role R. rewrite (empty_cons _ H).
  destruct A as [-> | ->]; reflexivity.
Qed.

Lemma sample_values_while_adapting_witness :
  let w := mkWriter [] "sample_writer:" [] ["lp__"; "y"] PROCESSING_ADAPTATION in
  message_prefix_ w = "sample_writer:" /\ sample_fields_ w <> [] /\ adapting w
  /\ operator_call_state w [1.0%float; 2.0%float] =
     Thrown "Adaptation should have completed before sample writer writes a vector of doubles." w.
Proof.
  cbv zeta. split; [reflexivity|]. split; [discriminate|]. split; [left; reflexivity|].
  apply (sample_values_while_adapting_throw
           (mkWriter [] "sample_writer:" [] ["lp__"; "y"] PROCESSING_ADAPTATION)
           [1.0%float; 2.0%float]).
  - reflexivity.
  - discriminate.
  - left; reflexivity.
Defined.

(** What a value vector does on the diagnostic and the sample writer once
    the guards are passed: the loop over the header. *)
Lemma headered_values (w : socket_writer) (state : list float) :
  message_prefix_ w = "diagnostic_writer:" \/ message_prefix_ w = "sample_writer:" ->
  header w <> [] ->
  (message_prefix_ w = "sample_writer:" -> ~ adapting w) ->
  operator_call_state w state =
  match add_named_features (header w) state (mkMessage (role_topic w) []) with
  | None => OutOfRange
  | Some m => Returned (send_message m w)
  end.
Proof.
  unfold header, role_topic. intros [R | R] H A; rewrite R in H; simpl in H.
  - by_role R. now rewrite (empty_cons _ H).
  - by_role R. now rewrite (empty_cons _ H), (not_adapting w (A R)).
Qed.






(** ** The length of the value vector is never compared with the header *)

Lemma firstn_same_length {A : Type} (n : nat) (l l' : list A) :
  firstn n l' = firstn n l -> List.length l < n -> l' = l.
Proof.
  intros E Hl.
  assert (Hlen : List.length (firstn n l') = List.length (firstn n l))
    by now rewrite E.
  rewrite !length_firstn in Hlen.
  rewrite (firstn_all2 (n := n) l) in E by lia.
  rewrite firstn_all2 in E by lia. exact E.
Qed.

(** The loop reads [state] at the indices below the number of fields and
    nowhere else. *)
Lemma add_named_features_reads_prefix (fields : list string)
    (state state' : list float) (m : WriterMessage) :
  firstn (List.length fields) state' = firstn (List.length fields) state ->
  add_named_features fields state' m = add_named_features fields state m.
Proof.
  intros E.
  destruct (Nat.le_gt_cases (List.length fields) (List.length state)) as [Hle | Hgt].
  - assert (Hle' : List.length fields <= List.length state').
    { assert (Hlen : List.length (firstn (List.length fields) state')
                     = List.length (firstn (List.length fields) state))
        by now rewrite E.
      rewrite !length_firstn in Hlen. lia. }
    rewrite !add_named_features_in_range by assumption.
    unfold zipped_features.
    rewrite (combine_firstn_l fields state'), (combine_firstn_l fields state).
    now rewrite E.
  - now rewrite (firstn_same_length _ _ _ E Hgt).
Qed.

(** C9. On a diagnostic or sample writer that passes the guards (header set
    and, on the sample writer, no adaptation report under way), the outcome of
    a value vector depends on the values below index [|header|] only. With
    at least [|header|] values the call returns with one message sent, whose
    features are the header zipped with the first [|header|] values: what
    follows them is dropped without an error. With fewer values than fields
    the call neither returns nor throws: it ends in the unchecked read past
    the end of the vector. *)
Theorem value_vector_length_unchecked (w : socket_writer) (values : list float) :
  message_prefix_ w = "diagnostic_writer:" \/ message_prefix_ w = "sample_writer:" ->
  header w <> [] ->
  (message_prefix_ w = "sample_writer:" -> ~ adapting w) ->
  (forall values' : list float,
     firstn (List.length (header w)) values' = firstn (List.length (header w)) values ->
     operator_call_state w values' = operator_call_state w values)
  /\ (List.length (header w) <= List.length values ->
      operator_call_state w values =
      Returned (send_message
                  (mkMessage (role_topic w)
                     (zipped_features (header w)
                        (firstn (List.length (header w)) values))) w))
  /\ (List.length values < List.length (header w) ->
      operator_call_state w values = OutOfRange
      /\ forall (what : string) (w' : socket_writer),
           operator_call_state w values <> Thrown what w').
Proof.
  intros R H A. split; [|split].
  - intros values' E.
    rewrite !(headered_values w _ R H A).
    now rewrite (add_named_features_reads_prefix _ _ _ _ E).
  - intros L. rewrite (headered_values w _ R H A).
    rewrite add_named_features_in_range by exact L. simpl.
    unfold zipped_features. now rewrite <- combine_firstn_l.
  - intros L. rewrite (headered_values w _ R H A).
    rewrite add_named_features_short by exact L.
    split; [reflexivity | discriminate].
Qed.

Lemma value_vector_length_unchecked_witness :
  let w := mkWriter [] "diagnostic_writer:" ["a"; "b"] [] BEFORE_PROCESSING_ADAPTATION in
  (message_prefix_ w = "diagnostic_writer:" \/ message_prefix_ w = "sample_writer:")
  /\ header w <> []
  /\ (message_prefix_ w = "sample_writer:" -> ~ adapting w)
  /\ operator_call_state w [1.5%float; 2.5%float; 3.5%float]
     = operator_call_state w [1.5%float; 2.5%float]
  /\ operator_call_state w [1.5%float] = OutOfRange.
Proof.
  cbv zeta.
  assert (R : message_prefix_ (mkWriter [] "diagnostic_writer:" ["a"; "b"] []
                                 BEFORE_PROCESSING_ADAPTATION) = "diagnostic_writer:"
              \/ message_prefix_ (mkWriter [] "diagnostic_writer:" ["a"; "b"] []
                                    BEFORE_PROCESSING_ADAPTATION) = "sample_writer:")
    by (left; reflexivity).
  assert (A : message_prefix_ (mkWriter [] "diagnostic_writer:" ["a"; "b"] []
                                 BEFORE_PROCESSING_ADAPTATION) = "sample_writer:" ->
              ~ adapting (mkWriter [] "diagnostic_writer:" ["a"; "b"] []
                            BEFORE_PROCESSING_ADAPTATION))
    by (intros _ [A | A]; discriminate A).
  split; [exact R|]. split; [discriminate|]. split; [exact A|]. split.
  - apply (proj1 (value_vector_length_unchecked _ [1.5%float; 2.5%float] R
                    ltac:(discriminate) A)).
    reflexivity.
  - apply (proj2 (proj2 (value_vector_length_unchecked _ [1.5%float] R
                           ltac:(discriminate) A))).
    simpl. lia.
Defined.

(** The same on the two writers, evaluated. *)
Example sample_trailing_value_dropped :
  operator_call_state
    (mkWriter [] "sample_writer:" [] ["lp__"; "y"] BEFORE_PROCESSING_ADAPTATION)
    [1.5%float; 2.5%float; 3.5%float]
  = Returned
      (mkWriter
         [mkMessage (Some WriterMessage_Topic_SAMPLE)
            [mkFeature (Some "lp__") (double_list [1.5%float]);
             mkFeature (Some "y") (double_list [2.5%float])]]
         "sample_writer:" [] ["lp__"; "y"] BEFORE_PROCESSING_ADAPTATION).
Proof. reflexivity. Qed.

Example sample_missing_value_out_of_range :
  operator_call_state
    (mkWriter [] "sample_writer:" [] ["lp__"; "y"] BEFORE_PROCESSING_ADAPTATION)
    [1.5%float]
  = OutOfRange.
Proof. reflexivity. Qed.

(** ** Name vectors and the header *)

Lemma role_cases (w : socket_writer) :
  message_prefix_ w = "diagnostic_writer:"
  \/ message_prefix_ w = "init_writer:"
  \/ message_prefix_ w = "sample_writer:"
  \/ recognised w = false.
Proof.
  unfold recognised.
  destruct (String.eqb_spec (message_prefix_ w) "diagnostic_writer:"); [now left|].
  destruct (String.eqb_spec (message_prefix_ w) "init_writer:"); [now right; left|].
  destruct (String.eqb_spec (message_prefix_ w) "sample_writer:");
    [now right; right; left|].
  now right; right; right.
Qed.

Lemma unrecognised_tests (w : socket_writer) :
  recognised w = false ->
  (message_prefix_ w =? "diagnostic_writer:") = false
  /\ (message_prefix_ w =? "init_writer:") = false
  /\ (message_prefix_ w =? "sample_writer:") = false.
Proof.
  unfold recognised. intros U.
  apply orb_false_iff in U. destruct U as [U U3].
  apply orb_false_iff in U. destruct U as [U1 U2]. auto.
Qed.

(** An event on a writer of no recognised role: every overload falls through
    its chain of comparisons. *)
Lemma deliver_unrecognised (w : socket_writer) (e : event) :
  recognised w = false -> deliver w e = Returned w.
Proof.
  intros U. destruct (unrecognised_tests w U) as (U1 & U2 & U3).
  destruct e; simpl; [| | |reflexivity];
    unfold operator_call_names, operator_call_state, operator_call_message;
    now rewrite U1, U2, U3.
Qed.

Ltac on_role R :=
  unfold deliver, header, operator_call_names, operator_call_state,
    operator_call_message, operator_call in *;
  rewrite ?R in *; simpl in *.

Ltac settle_loop :=
  match goal with
  | |- context [add_named_features ?f ?v ?m] =>
      destruct (add_named_features f v m); simpl
  end.

(** Only a name vector writes the field lists, and the role never changes. *)
Lemma deliver_keeps_fields (w : socket_writer) (e : event) :
  is_name_vector e = false ->
  match object_after (deliver w e) with
  | Some w' =>
      message_prefix_ w' = message_prefix_ w
      /\ sample_fields_ w' = sample_fields_ w
      /\ diagnostic_fields_ w' = diagnostic_fields_ w
  | None => True
  end.
Proof.
  intros N.
  destruct (role_cases w) as [R | [R | [R | U]]];
    [| | |now rewrite (deliver_unrecognised w e U)];
    destruct e as [names | state | message |]; try discriminate;
    on_role R; auto.
  - destruct (empty (diagnostic_fields_ w)); simpl; auto.
    settle_loop; auto.
  - destruct (empty (sample_fields_ w)); simpl; auto.
    destruct (_ || _); simpl; auto.
    settle_loop; auto.
Qed.

(** Until the first name vector arrives the header is empty. *)
Lemma fields_empty_before_names (events : list event) :
  forall w w' : socket_writer,
    forallb (fun e => negb (is_name_vector e)) events = true ->
    sample_fields_ w = [] -> diagnostic_fields_ w = [] ->
    run w events = Some w' ->
    message_prefix_ w' = message_prefix_ w
    /\ sample_fields_ w' = [] /\ diagnostic_fields_ w' = [].
Proof.
  induction events as [|e rest IH]; intros w w' F S D Hrun; simpl in *.
  - inversion Hrun; subst. auto.
  - apply andb_true_iff in F. destruct F as [Fe Fr].
    apply negb_true_iff in Fe.
    pose proof (deliver_keeps_fields w e Fe) as K.
    destruct (object_after (deliver w e)) as [w1|]; [|discriminate].
    destruct K as (Kp & Ks & Kd).
    destruct (IH w1 w' Fr) as (Hp & Hs & Hd); try congruence.
    repeat split; congruence.
Qed.

(** Once the header of a role holds a name, no event changes it. *)
Lemma deliver_keeps_set_header (w : socket_writer) (e : event) :
  header w <> [] ->
  match object_after (deliver w e) with
  | Some w' => message_prefix_ w' = message_prefix_ w /\ header w' = header w
  | None => True
  end.
Proof.
  intros H.
  destruct (role_cases w) as [R | [R | [R | U]]];
    [| | |now rewrite (deliver_unrecognised w e U)];
    destruct e as [names | state | message |];
    on_role R; rewrite ?R; simpl; auto;
    try rewrite (empty_cons _ H); simpl; rewrite ?R; simpl; auto.
  - settle_loop; rewrite ?R; simpl; auto.
  - destruct (_ || _); simpl; rewrite ?R; simpl; auto.
    settle_loop; rewrite ?R; simpl; auto.
Qed.

(** *** The sample writer *)

Lemma sample_names_header_empty (w : socket_writer) (names : list string) :
  message_prefix_ w = "sample_writer:" ->
  sample_fields_ w = [] ->
  operator_call_names w names = Returned (with_sample_fields names w).
Proof.
  intros R H. by_role R. rewrite H. simpl.
  now rewrite push_back_all_app.
Qed.

Lemma sample_names_header_set (w : socket_writer) (names : list string) :
  message_prefix_ w = "sample_writer:" ->
  sample_fields_ w <> [] ->
  operator_call_names w names =
  Thrown "Unexpected string vector in sample writer after column header." w.
Proof. intros R H. by_role R. now rewrite (empty_cons _ H). Qed.

(** C4, as stated, fails: after a first name vector without names the
    second one is not refused; it returns and becomes the header. *)
Lemma sample_second_names_after_empty_first :
  operator_call_names (socket_writer_new "sample_writer:") []
  = Returned (socket_writer_new "sample_writer:")
  /\ operator_call_names (socket_writer_new "sample_writer:") ["lp__"; "y"]
     = Returned (mkWriter [] "sample_writer:" [] ["lp__"; "y"]
                   BEFORE_PROCESSING_ADAPTATION)
  /\ forall (what : string) (w' : socket_writer),
       operator_call_names (socket_writer_new "sample_writer:") ["lp__"; "y"]
       <> Thrown what w'.
Proof. repeat split. discriminate. Qed.

(** C4, amended. On a sample writer a name vector that finds the header
    empty returns, records its names as the header and sends nothing; one
    that finds a name in the header throws and leaves the object as it was.
    So after a first name vector with at least one name every further name
    vector throws, and no event of any kind changes the header again. *)
Theorem sample_header_set_while_empty
    (w : socket_writer) (names names' : list string) (e : event) :
  message_prefix_ w = "sample_writer:" ->
  (sample_fields_ w = [] ->
   operator_call_names w names = Returned (with_sample_fields names w)
   /\ sample_fields_ (with_sample_fields names w) = names
   /\ socket (with_sample_fields names w) = socket w
   /\ (names <> [] ->
       operator_call_names (with_sample_fields names w) names' =
       Thrown "Unexpected string vector in sample writer after column header."
              (with_sample_fields names w)))
  /\ (sample_fields_ w <> [] ->
      operator_call_names w names =
      Thrown "Unexpected string vector in sample writer after column header." w
      /\ match object_after (deliver w e) with
         | Some w' => sample_fields_ w' = sample_fields_ w
         | None => True
         end).
Proof.
  intros R. split.
  - intros H. split; [now apply sample_names_header_empty|].
    split; [reflexivity|]. split; [reflexivity|].
    intros N. now apply sample_names_header_set.
  - intros H. split; [now apply sample_names_header_set|].
    assert (Hh : header w <> []) by (unfold header; now rewrite R).
    pose proof (deliver_keeps_set_header w e Hh) as K.
    destruct (object_after (deliver w e)) as [w'|]; [|exact I].
    destruct K as [Kp Kh]. unfold header in Kh.
    now rewrite Kp, R in Kh.
Qed.

Lemma sample_header_set_while_empty_witness :
  let w := socket_writer_new "sample_writer:" in
  message_prefix_ w = "sample_writer:"
  /\ sample_fields_ w = []
  /\ operator_call_names w ["lp__"; "y"] = Returned (with_sample_fields ["lp__"; "y"] w)
  /\ operator_call_names (with_sample_fields ["lp__"; "y"] w) ["z"] =
     Thrown "Unexpected string vector in sample writer after column header."
            (with_sample_fields ["lp__"; "y"] w).
Proof.
  cbv zeta.
  destruct (proj1 (sample_header_set_while_empty (socket_writer_new "sample_writer:")
                     ["lp__"; "y"] ["z"] empty_signal eq_refl) eq_refl)
    as (H1 & _ & _ & H2).
  split; [reflexivity|]. split; [reflexivity|]. split; [exact H1|].
  apply H2. discriminate.
Defined.

(** *** The diagnostic writer *)

Lemma diagnostic_names_header_empty (w : socket_writer) (names : list string) :
  message_prefix_ w = "diagnostic_writer:" ->
  diagnostic_fields_ w = [] ->
  operator_call_names w names = Returned (with_diagnostic_fields names w).
Proof.
  intros R H. by_role R. rewrite H. simpl.
  now rewrite push_back_all_app.
Qed.





(** C10. Whether the header is set is read off its emptiness. On a sample or
    diagnostic writer with no header yet, a name vector without names
    returns and leaves the header empty and the socket untouched; the name
    vector after it is then treated as the first: it returns (no throw on
    the sample writer, nothing sent on the diagnostic writer) and its names
    become the header. *)
Theorem header_detected_by_emptiness (w : socket_writer) (names : list string) :
  message_prefix_ w = "diagnostic_writer:" \/ message_prefix_ w = "sample_writer:" ->
  header w = [] ->
  exists w1 : socket_writer,
    operator_call_names w [] = Returned w1
    /\ message_prefix_ w1 = message_prefix_ w
    /\ header w1 = []
    /\ socket w1 = socket w
    /\ exists w2 : socket_writer,
         operator_call_names w1 names = Returned w2
         /\ header w2 = names
         /\ socket w2 = socket w.
Proof.
  unfold header. intros [R | R] H; rewrite R in H; simpl in H.
  - rewrite (diagnostic_names_header_empty w [] R H).
    eexists. split; [reflexivity|].
    split; [reflexivity|]. split; [simpl; now rewrite R|]. split; [reflexivity|].
    rewrite diagnostic_names_header_empty by (exact R || reflexivity).
    eexists. split; [reflexivity|]. simpl. now rewrite R.
  - rewrite (sample_names_header_empty w [] R H).
    eexists. split; [reflexivity|].
    split; [reflexivity|]. split; [simpl; now rewrite R|]. split; [reflexivity|].
    rewrite sample_names_header_empty by (exact R || reflexivity).
    eexists. split; [reflexivity|]. simpl. now rewrite R.
Qed.

Lemma header_detected_by_emptiness_witness :
  let w := socket_writer_new "sample_writer:" in
  (message_prefix_ w = "diagnostic_writer:" \/ message_prefix_ w = "sample_writer:")
  /\ header w = []
  /\ exists w1 : socket_writer,
       operator_call_names w [] = Returned w1
       /\ exists w2 : socket_writer,
            operator_call_names w1 ["lp__"] = Returned w2 /\ header w2 = ["lp__"].
Proof.
  cbv zeta.
  destruct (header_detected_by_emptiness (socket_writer_new "sample_writer:") ["lp__"]
              (or_intror eq_refl) eq_refl)
    as (w1 & H1 & _ & _ & _ & w2 & H2 & H3 & _).
  split; [right; reflexivity|]. split; [reflexivity|].
  exists w1. split; [exact H1|]. exists w2. split; [exact H2 | exact H3].
Defined.

(** *** The init writer and the roles without a handler *)

(** C7, as stated, fails: the empty signal on an init writer is not
    rejected; it returns and leaves the object as it was. *)
Lemma init_empty_signal_returns :
  operator_call (socket_writer_new "init_writer:")
  = Returned (socket_writer_new "init_writer:")
  /\ forall (what : string) (w' : socket_writer),
       deliver (socket_writer_new "init_writer:") empty_signal <> Thrown what w'.
Proof. split; [reflexivity | discriminate]. Qed.

(** C7, amended. On an init writer a name vector and a text line each throw
    and leave the object as it was, so nothing is sent; the empty signal
    returns without an error and sends nothing either. *)
Theorem init_rejects_names_and_text
    (w : socket_writer) (names : list string) (message : string) :
  message_prefix_ w = "init_writer:" ->
  operator_call_names w names = Thrown "Unexpected string vector for init writer." w
  /\ operator_call_message w message = Thrown "Unexpected string vector for init writer." w
  /\ operator_call w = Returned w.
Proof. intros R. repeat split; by_role R; reflexivity. Qed.

Lemma init_rejects_names_and_text_witness :
  let w := socket_writer_new "init_writer:" in
  message_prefix_ w = "init_writer:"
  /\ operator_call_names w ["lp__"] = Thrown "Unexpected string vector for init writer." w
  /\ operator_call_message w "Adaptation terminated"
     = Thrown "Unexpected string vector for init writer." w
  /\ operator_call w = Returned w.
Proof.
  cbv zeta. split; [reflexivity|].
  apply (init_rejects_names_and_text (socket_writer_new "init_writer:")).
  reflexivity.
Defined.

(** C8, as stated, fails: a writer constructed with the default prefix has
    none of the three roles, and a name vector, a value vector and a text
    line on it all return with nothing sent and nothing thrown. *)
Lemma unrecognised_role_silently_returns :
  recognised (socket_writer_new "") = false
  /\ deliver (socket_writer_new "") (name_vector ["lp__"; "y"])
     = Returned (socket_writer_new "")
  /\ deliver (socket_writer_new "") (value_vector [1.5%float])
     = Returned (socket_writer_new "")
  /\ deliver (socket_writer_new "") (text_line "Adaptation terminated")
     = Returned (socket_writer_new "")
  /\ socket (socket_writer_new "") = [].
Proof. repeat split. Qed.

(** C8, amended. Not every combination without a handler is reported: any
    event on a writer whose role tag is none of the three compared strings,
    and the empty signal on any writer, returns without an error, sends
    nothing and leaves the object as it was. *)
Theorem unhandled_combinations_return_silently (w : socket_writer) (e : event) :
  recognised w = false \/ e = empty_signal ->
  deliver w e = Returned w.
Proof.
  intros [U | ->]; [now apply deliver_unrecognised | reflexivity].
Qed.

Lemma unhandled_combinations_witness :
  (recognised (socket_writer_new "logger:") = false
   \/ text_line "Gradient evaluation took 1e-05 seconds" = empty_signal)
  /\ deliver (socket_writer_new "logger:")
       (text_line "Gradient evaluation took 1e-05 seconds")
     = Returned (socket_writer_new "logger:").
Proof.
  split; [left; reflexivity|].
  apply (unhandled_combinations_return_silently (socket_writer_new "logger:")).
  left; reflexivity.
Defined.

(** ** The scenarios of the specification, evaluated *)

Example init_happy_path :
  run (socket_writer_new "init_writer:")
    [value_vector [0.5%float; (-0.25)%float; 3.0%float]]
  = Some (mkWriter
            [mkMessage (Some WriterMessage_Topic_INITIALIZATION)
               [mkFeature None (double_list [0.5%float; (-0.25)%float; 3.0%float])]]
            "init_writer:" [] [] BEFORE_PROCESSING_ADAPTATION).
Proof. reflexivity. Qed.

Example sample_with_adaptation :
  run (socket_writer_new "sample_writer:")
    [name_vector ["lp__"; "y"];
     text_line "Adaptation terminated";
     text_line "Step size = 0.8";
     text_line "Diagonal elements of inverse mass matrix:";
     text_line "0.961989";
     value_vector [1.0%float; 2.0%float]]
  = Some (mkWriter
            [mkMessage (Some WriterMessage_Topic_SAMPLE)
               [mkFeature None (bytes_list ["Adaptation terminated"])];
             mkMessage (Some WriterMessage_Topic_SAMPLE)
               [mkFeature None (bytes_list ["Step size = 0.8"])];
             mkMessage (Some WriterMessage_Topic_SAMPLE)
               [mkFeature None (bytes_list ["Diagonal elements of inverse mass matrix:"])];
             mkMessage (Some WriterMessage_Topic_SAMPLE)
               [mkFeature None (bytes_list ["0.961989"])];
             mkMessage (Some WriterMessage_Topic_SAMPLE)
               [mkFeature (Some "lp__") (double_list [1.0%float]);
                mkFeature (Some "y") (double_list [2.0%float])]]
            "sample_writer:" [] ["lp__"; "y"] AFTER_PROCESSING_ADAPTATION).
Proof. reflexivity. Qed.

Example sample_draw_while_adapting :
  deliver
    (mkWriter [] "sample_writer:" [] ["lp__"; "y"] PROCESSING_ADAPTATION)
    (value_vector [1.0%float; 2.0%float])
  = Thrown "Adaptation should have completed before sample writer writes a vector of doubles."
      (mkWriter [] "sample_writer:" [] ["lp__"; "y"] PROCESSING_ADAPTATION).
Proof. reflexivity. Qed.

Example diagnostic_names_as_data :
  run (socket_writer_new "diagnostic_writer:")
    [name_vector ["a"; "b"]; name_vector ["c"; "d"]; value_vector [1.5%float; 2.5%float]]
  = Some (mkWriter
            [mkMessage (Some WriterMessage_Topic_DIAGNOSTIC)
               [mkFeature None (bytes_list ["c"; "d"])];
             mkMessage (Some WriterMessage_Topic_DIAGNOSTIC)
               [mkFeature (Some "a") (double_list [1.5%float]);
                mkFeature (Some "b") (double_list [2.5%float])]]
            "diagnostic_writer:" ["a"; "b"] [] BEFORE_PROCESSING_ADAPTATION).
Proof. reflexivity. Qed.

(** * Further properties of the overloads *)

(** ** One event *)

Lemma loop_keeps_topic (fields : list string) (state : list float) (l : list nat) :
  forall m0 m : WriterMessage,
    fold_left (loop_body fields state) l (Some m0) = Some m -> topic m = topic m0.
Proof.
  induction l as [|i l IH]; intros m0 m H; simpl in H.
  - now inversion H.
  - destruct (nth_error state i) as [v|].
    + apply IH in H. exact H.
    + rewrite loop_stuck in H. discriminate.
Qed.

Lemma add_named_features_topic (fields : list string) (state : list float)
    (m0 m : WriterMessage) :
  add_named_features fields state m0 = Some m -> topic m = topic m0.
Proof. apply loop_keeps_topic. Qed.

(** What one event may do to the role and the socket. *)
Lemma deliver_socket (w w' : socket_writer) (e : event) :
  object_after (deliver w e) = Some w' ->
  message_prefix_ w' = message_prefix_ w
  /\ (socket w' = socket w
      \/ exists m : WriterMessage,
           socket w' = socket w ++ [m] /\ topic m = role_topic w).
Proof.
  destruct (role_cases w) as [R | [R | [R | U]]].
  4: { rewrite (deliver_unrecognised w e U). simpl.
       intros H; inversion H; subst. auto. }
  all: unfold role_topic; destruct e as [names | state | message |];
    on_role R; rewrite ?R; simpl.
  all: repeat match goal with
         | |- context [empty ?l] => destruct (empty l); simpl
         | |- context [state_eqb ?a ?b || ?c] => destruct (state_eqb a b || c); simpl
         | |- context [add_named_features ?f ?v ?m] =>
             let E := fresh "E" in
             destruct (add_named_features f v m) eqn:E; simpl;
             [apply add_named_features_topic in E|]
         end.
  all: try discriminate.
  all: intros H; inversion H; subst; simpl; split; auto.
  all: right; eexists; split; [reflexivity|]; auto.
Qed.

Lemma adapting_test (w : socket_writer) :
  state_eqb (processing_adaptation_state_ w) PROCESSING_ADAPTATION
  || state_eqb (processing_adaptation_state_ w) FINAL_ADAPTATION_MESSAGE = true
  <-> adapting w.
Proof.
  unfold adapting.
  destruct (processing_adaptation_state_ w); simpl; split; intros H;
    try discriminate H; auto; destruct H as [H | H]; discriminate H.
Qed.

Lemma unrecognised_role (w : socket_writer) :
  recognised w = false ->
  message_prefix_ w <> "diagnostic_writer:"
  /\ message_prefix_ w <> "init_writer:"
  /\ message_prefix_ w <> "sample_writer:".
Proof.
  intros U. destruct (unrecognised_tests w U) as (U1 & U2 & U3).
  repeat split; now apply String.eqb_neq.
Qed.

Ltac on_role_sending R :=
  unfold deliver_sending, operator_call_names_sending, operator_call_state_sending,
    operator_call_message_sending, operator_call_sending, try_send_message in *;
  rewrite ?R in *; simpl in *.

Ltac settle_guards w :=
  repeat match goal with
    | |- context [empty ?l] =>
        let E := fresh "E" in
        destruct (empty l) eqn:E; simpl;
        [apply empty_nil in E
        |assert (l <> []) by (intros E'; rewrite E' in E; discriminate E)]
    | |- context [state_eqb ?a ?b || ?c] =>
        let A := fresh "A" in
        destruct (state_eqb a b || c) eqn:A; simpl;
        [apply adapting_test in A
        |assert (~ adapting w)
           by (intros A'; apply adapting_test in A'; congruence)]
    end.

(** With a send that succeeds the overloads are the ones above. *)
Lemma deliver_sending_sent (w : socket_writer) (e : event) :
  deliver_sending true w e =
  match deliver w e with
  | Returned w' => returns w'
  | Thrown what w' => throws_runtime_error what w'
  | OutOfRange => reads_out_of_range
  end.
Proof.
  destruct e as [names | state | message |]; simpl;
    unfold operator_call_names_sending, operator_call_names,
      operator_call_state_sending, operator_call_state,
      operator_call_message_sending, operator_call_message,
      operator_call_sending, operator_call, try_send_message;
    repeat match goal with
      | |- context [if ?b then _ else _] => destruct b
      | |- context [add_named_features ?f ?v ?m] =>
          destruct (add_named_features f v m)
      end; reflexivity.
Qed.

(** X1. A text line on the diagnostic or the sample writer is refused by no
    guard, whatever the header and the adaptation state are: the call gets
    to its send. When the send succeeds the call returns, and the socket is
    the socket before followed by one message, of the topic of the role,
    with a single feature without a name whose list of byte strings is the
    line alone. When the send fails the call throws the error of the send
    and the socket is as before. Either way role and field lists are as
    before, and the adaptation state is as before on the diagnostic writer
    and one step of the machine further on the sample writer. *)
Theorem text_line_reaches_send (sent : bool) (w : socket_writer) (message : string) :
  message_prefix_ w = "diagnostic_writer:" \/ message_prefix_ w = "sample_writer:" ->
  deliver_sending sent w (text_line message) =
  if sent then
    returns
      (mkWriter
         (socket w ++ [mkMessage (role_topic w) [mkFeature None (bytes_list [message])]])
         (message_prefix_ w) (diagnostic_fields_ w) (sample_fields_ w)
         (if message_prefix_ w =? "sample_writer:"
          then adaptation_step (processing_adaptation_state_ w) message
          else processing_adaptation_state_ w))
  else
    throws_system_error
      (mkWriter (socket w) (message_prefix_ w) (diagnostic_fields_ w) (sample_fields_ w)
         (if message_prefix_ w =? "sample_writer:"
          then adaptation_step (processing_adaptation_state_ w) message
          else processing_adaptation_state_ w)).
Proof.
  unfold role_topic. destruct w as [sock prefix diag samp st]. simpl.
  intros [-> | ->]; unfold operator_call_message_sending, try_send_message; simpl;
    destruct sent; reflexivity.
Qed.

Lemma text_line_reaches_send_witness :
  let w := mkWriter [] "sample_writer:" [] [] BEFORE_PROCESSING_ADAPTATION in
  (message_prefix_ w = "diagnostic_writer:" \/ message_prefix_ w = "sample_writer:")
  /\ deliver_sending true w (text_line "Adaptation terminated")
     = returns (mkWriter
                  [mkMessage (Some WriterMessage_Topic_SAMPLE)
                     [mkFeature None (bytes_list ["Adaptation terminated"])]]
                  "sample_writer:" [] [] PROCESSING_ADAPTATION)
  /\ deliver_sending false w (text_line "Adaptation terminated")
     = throws_system_error (mkWriter [] "sample_writer:" [] [] PROCESSING_ADAPTATION).
Proof.
  cbv zeta. split; [right; reflexivity|]. split.
  - exact (text_line_reaches_send true
             (mkWriter [] "sample_writer:" [] [] BEFORE_PROCESSING_ADAPTATION)
             "Adaptation terminated" (or_intror eq_refl)).
  - exact (text_line_reaches_send false
             (mkWriter [] "sample_writer:" [] [] BEFORE_PROCESSING_ADAPTATION)
             "Adaptation terminated" (or_intror eq_refl)).
Defined.

(** X2. What a throw leaves behind. A [std::runtime_error] thrown by one of
    the overloads' own guards leaves the object exactly as the call found
    it. The error of a failed send leaves the socket, the role and the field
    lists as the call found them; the object is then as found too, except
    after a text line on the sample writer, where the adaptation state has
    already taken its step when the send is tried. *)
Theorem throw_leaves_object_but_state
    (sent : bool) (w w' : socket_writer) (e : event) :
  (forall what : string,
     deliver_sending sent w e = throws_runtime_error what w' -> w' = w)
  /\ (deliver_sending sent w e = throws_system_error w' ->
      w' = w
      \/ exists m : string,
           e = text_line m
           /\ message_prefix_ w = "sample_writer:"
           /\ w' = with_state (adaptation_step (processing_adaptation_state_ w) m) w).
Proof.
  destruct (role_cases w) as [R | [R | [R | U]]].
  4: { destruct (unrecognised_tests w U) as (U1 & U2 & U3).
       destruct e; simpl;
         unfold operator_call_names_sending, operator_call_state_sending,
           operator_call_message_sending, operator_call_sending;
         rewrite ?U1, ?U2, ?U3; split; intros; discriminate. }
  all: destruct e as [names | state | message |]; on_role_sending R.
  all: repeat match goal with
         | |- context [empty ?l] => destruct (empty l); simpl
         | |- context [state_eqb ?a ?b || ?c] => destruct (state_eqb a b || c); simpl
         | |- context [add_named_features ?f ?v ?m] =>
             destruct (add_named_features f v m); simpl
         end.
  all: destruct sent; split; intros; try discriminate.
  all: try match goal with
         | H : throws_runtime_error _ _ = throws_runtime_error _ _ |- _ =>
             now inversion H
         end.
  all: match goal with
       | H : throws_system_error _ = throws_system_error _ |- _ =>
           inversion H; subst; clear H
       end.
  all: try (left; reflexivity).
  right. exists message. auto.
Qed.

Lemma throw_leaves_object_but_state_witness :
  let w := mkWriter [] "sample_writer:" [] ["lp__"] PROCESSING_ADAPTATION in
  deliver_sending false w (text_line "Diagonal elements of inverse mass matrix:")
  = throws_system_error (mkWriter [] "sample_writer:" [] ["lp__"] FINAL_ADAPTATION_MESSAGE)
  /\ deliver_sending false w (value_vector [1.5%float])
     = throws_runtime_error
         "Adaptation should have completed before sample writer writes a vector of doubles." w
  /\ w = w.
Proof.
  cbv zeta. split; [reflexivity|]. split; [reflexivity|].
  apply (proj1 (throw_leaves_object_but_state false
                  (mkWriter [] "sample_writer:" [] ["lp__"] PROCESSING_ADAPTATION)
                  (mkWriter [] "sample_writer:" [] ["lp__"] PROCESSING_ADAPTATION)
                  (value_vector [1.5%float]))
           "Adaptation should have completed before sample writer writes a vector of doubles.").
  reflexivity.
Defined.

Lemma add_named_features_none (fields : list string) (state : list float)
    (m : WriterMessage) :
  add_named_features fields state m = None <-> List.length state < List.length fields.
Proof.
  split; [|apply add_named_features_short].
  intros H.
  destruct (Nat.le_gt_cases (List.length fields) (List.length state)) as [L | L];
    [|exact L].
  rewrite add_named_features_in_range in H by exact L. discriminate H.
Qed.

(** Which calls a guard refuses; the fate of the send plays no part. *)
Lemma guard_throws_iff (sent : bool) (w : socket_writer) (e : event) :
  (exists (what : string) (w' : socket_writer),
     deliver_sending sent w e = throws_runtime_error what w')
  <->
  match e with
  | name_vector _ =>
      message_prefix_ w = "init_writer:"
      \/ (message_prefix_ w = "sample_writer:" /\ sample_fields_ w <> [])
  | value_vector _ =>
      (message_prefix_ w = "diagnostic_writer:" /\ diagnostic_fields_ w = [])
      \/ (message_prefix_ w = "sample_writer:"
          /\ (sample_fields_ w = [] \/ adapting w))
  | text_line _ => message_prefix_ w = "init_writer:"
  | empty_signal => False
  end.
Proof.
  destruct (role_cases w) as [R | [R | [R | U]]].
  4: { destruct (unrecognised_role w U) as (N1 & N2 & N3).
       destruct (unrecognised_tests w U) as (U1 & U2 & U3).
       split.
       - intros (what & w' & Hd). exfalso. revert Hd.
         destruct e; simpl;
           unfold operator_call_names_sending, operator_call_state_sending,
             operator_call_message_sending, operator_call_sending;
           rewrite ?U1, ?U2, ?U3; discriminate.
       - destruct e; tauto. }
  all: destruct e as [names | state | message |]; on_role_sending R.
  all: settle_guards w.
  all: repeat match goal with
         | |- context [add_named_features ?f ?v ?m] =>
             destruct (add_named_features f v m); simpl
         end.
  all: destruct sent.
  all: split;
    [ intros (what & w' & Hd); try discriminate Hd; auto
    | intros Hr; try (eexists; eexists; reflexivity) ].
  all: try tauto.
  all: repeat match goal with
         | H : _ \/ _ |- _ => destruct H
         | H : _ /\ _ |- _ => destruct H
         end; try discriminate; try contradiction; try tauto.
Qed.

(** Which calls get as far as the send. *)
Lemma send_fails_iff (sent : bool) (w : socket_writer) (e : event) :
  (exists w' : socket_writer, deliver_sending sent w e = throws_system_error w')
  <->
  sent = false
  /\ match e with
     | name_vector _ =>
         message_prefix_ w = "diagnostic_writer:" /\ diagnostic_fields_ w <> []
     | value_vector state =>
         message_prefix_ w = "init_writer:"
         \/ ((message_prefix_ w = "diagnostic_writer:"
              \/ message_prefix_ w = "sample_writer:")
             /\ header w <> []
             /\ (message_prefix_ w = "sample_writer:" -> ~ adapting w)
             /\ List.length (header w) <= List.length state)
     | text_line _ =>
         message_prefix_ w = "diagnostic_writer:" \/ message_prefix_ w = "sample_writer:"
     | empty_signal => False
     end.
Proof.
  destruct (role_cases w) as [R | [R | [R | U]]].
  4: { destruct (unrecognised_role w U) as (N1 & N2 & N3).
       destruct (unrecognised_tests w U) as (U1 & U2 & U3).
       split.
       - intros (w' & Hd). exfalso. revert Hd.
         destruct e; simpl;
           unfold operator_call_names_sending, operator_call_state_sending,
             operator_call_message_sending, operator_call_sending;
           rewrite ?U1, ?U2, ?U3; discriminate.
       - destruct e; tauto. }
  all: destruct e as [names | state | message |]; unfold header; on_role_sending R.
  all: settle_guards w.
  all: repeat match goal with
         | |- context [add_named_features ?f ?v ?m] =>
             let F := fresh "F" in
             destruct (add_named_features f v m) eqn:F; simpl;
             [assert (List.length f <= List.length v)
                by (destruct (Nat.le_gt_cases (List.length f) (List.length v))
                      as [L | L]; [exact L|];
                    rewrite (add_named_features_short f v m L) in F; discriminate F)
             |apply add_named_features_none in F]
         end.
  all: destruct sent.
  all: split;
    [ intros (w' & Hd); try discriminate Hd; split; auto
    | intros (Hs & Hr); try discriminate Hs; try (eexists; reflexivity) ].
  all: try tauto.
  all: try (right; repeat split; auto; discriminate).
  all: repeat match goal with
         | H : _ \/ _ |- _ => destruct H
         | H : _ /\ _ |- _ => destruct H
         end; try discriminate; try contradiction; try tauto; try lia.
Qed.

(** X3. The calls that throw, exactly. A guard throws its
    [std::runtime_error] if and only if the event is a name vector or a text
    line on the init writer, a value vector on a diagnostic writer whose
    header is empty, a name vector on a sample writer whose header is set, or
    a value vector on a sample writer whose header is empty or whose
    adaptation report is under way. The error of the send is thrown if and
    only if the send fails and the call gets as far as it: a name vector on
    a diagnostic writer whose header is set, a value vector on the init
    writer, a value vector with at least as many values as fields on a
    diagnostic or sample writer that passes the guards, or a text line on
    the diagnostic or the sample writer. The empty signal never throws. *)
Theorem throws_exactly_when_guard_or_send (sent : bool) (w : socket_writer) (e : event) :
  ((exists (what : string) (w' : socket_writer),
      deliver_sending sent w e = throws_runtime_error what w')
   <->
   match e with
   | name_vector _ =>
       message_prefix_ w = "init_writer:"
       \/ (message_prefix_ w = "sample_writer:" /\ sample_fields_ w <> [])
   | value_vector _ =>
       (message_prefix_ w = "diagnostic_writer:" /\ diagnostic_fields_ w = [])
       \/ (message_prefix_ w = "sample_writer:"
           /\ (sample_fields_ w = [] \/ adapting w))
   | text_line _ => message_prefix_ w = "init_writer:"
   | empty_signal => False
   end)
  /\ ((exists w' : socket_writer, deliver_sending sent w e = throws_system_error w')
      <->
      sent = false
      /\ match e with
         | name_vector _ =>
             message_prefix_ w = "diagnostic_writer:" /\ diagnostic_fields_ w <> []
         | value_vector state =>
             message_prefix_ w = "init_writer:"
             \/ ((message_prefix_ w = "diagnostic_writer:"
                  \/ message_prefix_ w = "sample_writer:")
                 /\ header w <> []
                 /\ (message_prefix_ w = "sample_writer:" -> ~ adapting w)
                 /\ List.length (header w) <= List.length state)
         | text_line _ =>
             message_prefix_ w = "diagnostic_writer:"
             \/ message_prefix_ w = "sample_writer:"
         | empty_signal => False
         end).
Proof.
  split; [apply guard_throws_iff | apply send_fails_iff].
Qed.

Lemma throws_exactly_when_guard_or_send_witness :
  let w := mkWriter [] "diagnostic_writer:" ["a"; "b"] [] BEFORE_PROCESSING_ADAPTATION in
  (exists w' : socket_writer,
     deliver_sending false w (value_vector [1.5%float; 2.5%float])
     = throws_system_error w')
  /\ ~ (exists (what : string) (w' : socket_writer),
          deliver_sending false w (value_vector [1.5%float; 2.5%float])
          = throws_runtime_error what w').
Proof.
  cbv zeta.
  destruct (throws_exactly_when_guard_or_send false
              (mkWriter [] "diagnostic_writer:" ["a"; "b"] []
                 BEFORE_PROCESSING_ADAPTATION)
              (value_vector [1.5%float; 2.5%float])) as (G & S).
  split.
  - apply (proj2 S). split; [reflexivity|]. right.
    split; [left; reflexivity|]. split; [discriminate|].
    split; [discriminate|]. simpl. lia.
  - intros T. apply (proj1 G) in T.
    destruct T as [[_ T] | [T _]]; discriminate T.
Defined.

(** X4. The read past the end of the value vector, exactly: an event ends
    in it if and only if it is a value vector on a diagnostic or sample
    writer that passes the guards (header set and, on the sample writer, no
    adaptation report under way) and has fewer values than the header has
    fields. No other event on any writer reads out of range. *)
Theorem out_of_range_exactly_when (w : socket_writer) (e : event) :
  deliver w e = OutOfRange
  <->
  exists state : list float,
    e = value_vector state
    /\ (message_prefix_ w = "diagnostic_writer:" \/ message_prefix_ w = "sample_writer:")
    /\ header w <> []
    /\ (message_prefix_ w = "sample_writer:" -> ~ adapting w)
    /\ List.length state < List.length (header w).
Proof.
  split.
  - intros H.
    destruct (role_cases w) as [R | [R | [R | U]]].
    4: { rewrite (deliver_unrecognised w e U) in H. discriminate H. }
    all: destruct e as [names | state | message |]; on_role R;
      try discriminate H.
    + destruct (empty (diagnostic_fields_ w)) eqn:E; [discriminate H|].
      destruct (empty (diagnostic_fields_ w)); discriminate H.
    + destruct (empty (diagnostic_fields_ w)) eqn:E; [discriminate H|].
      destruct (add_named_features _ _ _) eqn:F; [discriminate H|].
      apply add_named_features_none in F.
      exists state.
      repeat split; auto; try discriminate.
      intros E'. rewrite E' in E. discriminate E.
    + destruct (empty (sample_fields_ w)); discriminate H.
    + destruct (empty (sample_fields_ w)) eqn:E; [discriminate H|].
      destruct (_ || _) eqn:A; [discriminate H|].
      destruct (add_named_features _ _ _) eqn:F; [discriminate H|].
      apply add_named_features_none in F.
      exists state.
      repeat split; auto.
      * intros E'. rewrite E' in E. discriminate E.
      * intros _ A'. apply adapting_test in A'. congruence.
  - intros (state & -> & R & H & A & L). simpl.
    rewrite (headered_values w state R H A).
    now rewrite add_named_features_short.
Qed.

Lemma out_of_range_exactly_when_witness :
  let w := mkWriter [] "diagnostic_writer:" ["a"; "b"] [] BEFORE_PROCESSING_ADAPTATION in
  deliver w (value_vector [1.5%float]) = OutOfRange.
Proof.
  cbv zeta.
  apply (proj2 (out_of_range_exactly_when
                  (mkWriter [] "diagnostic_writer:" ["a"; "b"] []
                     BEFORE_PROCESSING_ADAPTATION)
                  (value_vector [1.5%float]))).
  exists [1.5%float]. split; [reflexivity|]. split; [left; reflexivity|].
  split; [discriminate|]. split; [discriminate|]. simpl. lia.
Defined.

(** ** Sequences of events *)

Lemma role_topic_of_prefix (w w' : socket_writer) :
  message_prefix_ w' = message_prefix_ w -> role_topic w' = role_topic w.
Proof. unfold role_topic. now intros ->. Qed.

Lemma run_socket (events : list event) :
  forall w w' : socket_writer,
    run w events = Some w' ->
    message_prefix_ w' = message_prefix_ w
    /\ exists sent : list WriterMessage,
         socket w' = socket w ++ sent
         /\ List.length sent <= List.length events
         /\ Forall (fun m => topic m = role_topic w) sent.
Proof.
  induction events as [|e rest IH]; intros w w' H; simpl in H.
  - inversion H; subst. split; [reflexivity|].
    exists []. rewrite app_nil_r. repeat split; auto.
  - destruct (object_after (deliver w e)) as [w1|] eqn:D; [|discriminate H].
    destruct (deliver_socket w w1 e D) as (P1 & S1).
    destruct (IH w1 w' H) as (P & sent & S & L & T).
    rewrite (role_topic_of_prefix w w1 P1) in T.
    split; [congruence|].
    destruct S1 as [S1 | (m & S1 & T1)]; rewrite S1 in S.
    + exists sent. simpl. repeat split; auto.
    + exists (m :: sent). rewrite <- app_assoc in S. simpl in *.
      repeat split; auto. lia.
Qed.

(** X5. Over any sequence of events the socket only grows, by at most one
    message per event delivered, and what was sent before stays as it was;
    the role tag never changes. *)
Theorem run_sends_at_most_one_per_event
    (w w' : socket_writer) (events : list event) :
  run w events = Some w' ->
  message_prefix_ w' = message_prefix_ w
  /\ exists sent : list WriterMessage,
       socket w' = socket w ++ sent
       /\ List.length sent <= List.length events.
Proof.
  intros H. destruct (run_socket events w w' H) as (P & sent & S & L & _).
  split; [exact P|]. exists sent. auto.
Qed.

Lemma run_sends_at_most_one_per_event_witness :
  let w := mkWriter [] "sample_writer:" [] [] BEFORE_PROCESSING_ADAPTATION in
  let events := [name_vector ["lp__"]; empty_signal; name_vector ["y"];
                 value_vector [1.5%float]; text_line "done"] in
  exists w' : socket_writer,
    run w events = Some w'
    /\ message_prefix_ w' = "sample_writer:"
    /\ List.length (socket w') = 2.
Proof.
  cbv zeta. eexists. split; [reflexivity|].
  destruct (run_sends_at_most_one_per_event
              (mkWriter [] "sample_writer:" [] [] BEFORE_PROCESSING_ADAPTATION) _
              [name_vector ["lp__"]; empty_signal; name_vector ["y"];
               value_vector [1.5%float]; text_line "done"] eq_refl) as (P & _).
  split; [exact P | reflexivity].
Defined.

Lemma run_unrecognised (events : list event) :
  forall w w' : socket_writer,
    recognised w = false -> run w events = Some w' -> w' = w.
Proof.
  induction events as [|e rest IH]; intros w w' U R; simpl in R.
  - now inversion R.
  - rewrite (deliver_unrecognised w e U) in R. simpl in R. now apply IH.
Qed.

(** X6. Topic correctness: whatever events a freshly constructed writer is
    given, every message on its socket carries the topic of its role
    (DIAGNOSTIC, INITIALIZATION or SAMPLE for the three role tags), and a
    writer with any other role tag never sends anything. *)
Theorem run_topic_of_role (message_prefix : string) (events : list event)
    (w' : socket_writer) :
  run (socket_writer_new message_prefix) events = Some w' ->
  Forall (fun m => topic m = role_topic w') (socket w')
  /\ (recognised w' = false -> socket w' = []).
Proof.
  intros H.
  destruct (run_socket events _ w' H) as (P & sent & S & L & T).
  rewrite <- (role_topic_of_prefix _ _ P) in T.
  simpl in S, P. split.
  - rewrite S. exact T.
  - intros U.
    assert (U0 : recognised (socket_writer_new message_prefix) = false).
    { unfold recognised in *. simpl. now rewrite P in U. }
    now rewrite (run_unrecognised events _ w' U0 H).
Qed.

Lemma run_topic_of_role_witness :
  exists w' : socket_writer,
    run (socket_writer_new "diagnostic_writer:")
      [name_vector ["a"]; text_line "note"; value_vector [1.5%float]; name_vector ["b"]]
    = Some w'
    /\ Forall (fun m => topic m = Some WriterMessage_Topic_DIAGNOSTIC) (socket w')
    /\ List.length (socket w') = 3.
Proof.
  eexists. split; [reflexivity|]. split; [|reflexivity].
  apply (proj1 (run_topic_of_role "diagnostic_writer:"
                  [name_vector ["a"]; text_line "note"; value_vector [1.5%float];
                   name_vector ["b"]] _ eq_refl)).
Defined.

(** What one event leaves alone. *)
Lemma deliver_untouched (w w' : socket_writer) (e : event) :
  object_after (deliver w e) = Some w' ->
  (message_prefix_ w <> "sample_writer:" ->
   sample_fields_ w' = sample_fields_ w
   /\ processing_adaptation_state_ w' = processing_adaptation_state_ w)
  /\ (message_prefix_ w <> "diagnostic_writer:" ->
      diagnostic_fields_ w' = diagnostic_fields_ w)
  /\ ((forall m : string, e <> text_line m) ->
      processing_adaptation_state_ w' = processing_adaptation_state_ w).
Proof.
  destruct (role_cases w) as [R | [R | [R | U]]].
  4: { rewrite (deliver_unrecognised w e U). simpl.
       intros H; inversion H; subst. auto. }
  all: destruct e as [names | state | message |]; on_role R.
  all: repeat match goal with
         | |- context [empty ?l] => destruct (empty l); simpl
         | |- context [state_eqb ?a ?b || ?c] => destruct (state_eqb a b || c); simpl
         | |- context [add_named_features ?f ?v ?m] =>
             destruct (add_named_features f v m); simpl
         end.
  all: intros H; try discriminate H; inversion H; subst; simpl.
  all: repeat split; auto; try congruence.
  all: intros N; exfalso; now apply (N message).
Qed.

Lemma run_untouched (events : list event) :
  forall w w' : socket_writer,
    run w events = Some w' ->
    (message_prefix_ w <> "sample_writer:" ->
     sample_fields_ w' = sample_fields_ w
     /\ processing_adaptation_state_ w' = processing_adaptation_state_ w)
    /\ (message_prefix_ w <> "diagnostic_writer:" ->
        diagnostic_fields_ w' = diagnostic_fields_ w)
    /\ ((forall m : string, ~ In (text_line m) events) ->
        processing_adaptation_state_ w' = processing_adaptation_state_ w).
Proof.
  induction events as [|e rest IH]; intros w w' H; simpl in H.
  - inversion H; subst. auto.
  - destruct (object_after (deliver w e)) as [w1|] eqn:D; [|discriminate H].
    destruct (deliver_socket w w1 e D) as (P1 & _).
    destruct (deliver_untouched w w1 e D) as (A1 & B1 & C1).
    destruct (IH w1 w' H) as (A & B & C).
    rewrite P1 in A, B.
    split; [|split].
    + intros N. destruct (A N), (A1 N). split; congruence.
    + intros N. rewrite (B N). auto.
    + intros N. rewrite C, C1; auto.
      * intros m E. apply (N m). left. exact E.
      * intros m I. apply (N m). right. exact I.
Qed.

(** X7. The adaptation state belongs to the sample writer and to its text
    lines: over any sequence of events it never changes on a writer of
    another role, and on the sample writer it never changes unless a text
    line is among the events (name vectors, value vectors and the empty
    signal leave it alone). *)
Theorem adaptation_state_changed_by_sample_text_only
    (w w' : socket_writer) (events : list event) :
  run w events = Some w' ->
  message_prefix_ w <> "sample_writer:" \/ (forall m : string, ~ In (text_line m) events) ->
  processing_adaptation_state_ w' = processing_adaptation_state_ w.
Proof.
  intros H [N | N]; destruct (run_untouched events w w' H) as (A & _ & C).
  - now destruct (A N).
  - now apply C.
Qed.

Lemma adaptation_state_changed_by_sample_text_only_witness :
  let w := mkWriter [] "diagnostic_writer:" [] [] BEFORE_PROCESSING_ADAPTATION in
  let events := [text_line "Adaptation terminated";
                 text_line "Diagonal elements of inverse mass matrix:";
                 text_line "0.961989"] in
  exists w' : socket_writer,
    run w events = Some w'
    /\ processing_adaptation_state_ w' = BEFORE_PROCESSING_ADAPTATION.
Proof.
  cbv zeta. eexists. split; [reflexivity|].
  apply (adaptation_state_changed_by_sample_text_only
           (mkWriter [] "diagnostic_writer:" [] [] BEFORE_PROCESSING_ADAPTATION) _
           [text_line "Adaptation terminated";
            text_line "Diagonal elements of inverse mass matrix:";
            text_line "0.961989"] eq_refl).
  left. discriminate.
Defined.

(** X8. Each role keeps to its own field list: over any sequence of events
    only a sample writer ever writes [sample_fields_] and only a diagnostic
    writer ever writes [diagnostic_fields_]; an init writer, or a writer of
    no recognised role, writes neither. *)
Theorem field_lists_written_by_their_role
    (w w' : socket_writer) (events : list event) :
  run w events = Some w' ->
  (message_prefix_ w <> "sample_writer:" -> sample_fields_ w' = sample_fields_ w)
  /\ (message_prefix_ w <> "diagnostic_writer:" ->
      diagnostic_fields_ w' = diagnostic_fields_ w).
Proof.
  intros H. destruct (run_untouched events w w' H) as (A & B & _).
  split; [|exact B]. intros N. now destruct (A N).
Qed.

Lemma field_lists_written_by_their_role_witness :
  let w := socket_writer_new "sample_writer:" in
  let events := [name_vector ["lp__"]; value_vector [1.5%float]] in
  exists w' : socket_writer,
    run w events = Some w'
    /\ sample_fields_ w' = ["lp__"]
    /\ diagnostic_fields_ w' = [].
Proof.
  cbv zeta. eexists. split; [reflexivity|]. split; [reflexivity|].
  apply (proj2 (field_lists_written_by_their_role
                  (socket_writer_new "sample_writer:") _
                  [name_vector ["lp__"]; value_vector [1.5%float]] eq_refl)).
  discriminate.
Defined.

(** The adaptation state after one event: as before, or one step of the
    machine on the text line a sample writer was given. *)
Lemma deliver_state_step (w w' : socket_writer) (e : event) :
  object_after (deliver w e) = Some w' ->
  processing_adaptation_state_ w' = processing_adaptation_state_ w
  \/ exists m : string,
       e = text_line m
       /\ processing_adaptation_state_ w'
          = adaptation_step (processing_adaptation_state_ w) m.
Proof.
  intros H. destruct (deliver_untouched w w' e H) as (A & _ & C).
  destruct e as [names | state | message |];
    try (left; apply C; discriminate).
  destruct (String.eqb_spec (message_prefix_ w) "sample_writer:") as [R | N].
  - right. exists message. split; [reflexivity|].
    simpl in H. rewrite (sample_text_line w message R) in H.
    simpl in H. now inversion H.
  - left. now destruct (A N).
Qed.

(** X9. Without an adaptation report the machine stays where it starts:
    from BEFORE, over any sequence of events none of whose text lines begins
    with "Adaptation terminated", the adaptation state is still BEFORE. *)
Theorem no_adaptation_stays_before (events : list event) (w w' : socket_writer) :
  run w events = Some w' ->
  processing_adaptation_state_ w = BEFORE_PROCESSING_ADAPTATION ->
  (forall m : string,
     In (text_line m) events -> ~ begins_with "Adaptation terminated" m) ->
  processing_adaptation_state_ w' = BEFORE_PROCESSING_ADAPTATION.
Proof.
  revert w. induction events as [|e rest IH]; intros w H B N; simpl in H.
  - inversion H; subst. exact B.
  - destruct (object_after (deliver w e)) as [w1|] eqn:D; [|discriminate H].
    apply (IH w1 H).
    + destruct (deliver_state_step w w1 e D) as [S | (m & -> & S)];
        [congruence|].
      rewrite S, B.
      pose proof (adaptation_step_table BEFORE_PROCESSING_ADAPTATION m) as T.
      inversion T as [m' Hb | m' Hb | | | |]; subst; [|congruence].
      exfalso. apply (N m); [now left | exact Hb].
    + intros m I. apply N. now right.
Qed.

Lemma no_adaptation_stays_before_witness :
  let w := socket_writer_new "sample_writer:" in
  let events := [name_vector ["lp__"]; text_line "adaptation terminated";
                 value_vector [1.5%float]] in
  exists w' : socket_writer,
    run w events = Some w'
    /\ processing_adaptation_state_ w' = BEFORE_PROCESSING_ADAPTATION.
Proof.
  cbv zeta. eexists. split; [reflexivity|].
  apply (no_adaptation_stays_before
           [name_vector ["lp__"]; text_line "adaptation terminated";
            value_vector [1.5%float]]
           (socket_writer_new "sample_writer:") _ eq_refl eq_refl).
  intros m [E | [E | [E | []]]]; try discriminate E.
  inversion E; subst. intros B.
  apply prefix_begins_with in B. discriminate B.
Defined.

(** X10. After "Adaptation terminated" the sample writer waits for the line
    that begins with "Diagonal elements of inverse mass matrix". On a sample
    writer with its header set and the state PROCESSING, any sequence of
    events none of whose text lines begins with that prefix runs to the end
    (every value vector and name vector in it throws, nothing reads out of
    range), leaves the state PROCESSING and the header as it was, and every
    value vector delivered afterwards still throws. *)
Theorem adaptation_waits_for_diagonal_line (events : list event) (w : socket_writer) :
  message_prefix_ w = "sample_writer:" ->
  sample_fields_ w <> [] ->
  processing_adaptation_state_ w = PROCESSING_ADAPTATION ->
  (forall m : string,
     In (text_line m) events ->
     ~ begins_with "Diagonal elements of inverse mass matrix" m) ->
  exists w' : socket_writer,
    run w events = Some w'
    /\ processing_adaptation_state_ w' = PROCESSING_ADAPTATION
    /\ sample_fields_ w' = sample_fields_ w
    /\ forall values : list float,
         deliver w' (value_vector values) =
         Thrown "Adaptation should have completed before sample writer writes a vector of doubles." w'.
Proof.
  revert w. induction events as [|e rest IH]; intros w R H P N.
  - exists w. split; [reflexivity|]. split; [exact P|]. split; [reflexivity|].
    intros values. simpl. by_role R. now rewrite (empty_cons _ H), P.
  - assert (Nrest : forall m : string,
               In (text_line m) rest ->
               ~ begins_with "Diagonal elements of inverse mass matrix" m)
      by (intros m I; apply N; now right).
    assert (Hsame : exists w1 : socket_writer,
               object_after (deliver w e) = Some w1
               /\ message_prefix_ w1 = "sample_writer:"
               /\ sample_fields_ w1 = sample_fields_ w
               /\ processing_adaptation_state_ w1 = PROCESSING_ADAPTATION).
    { destruct e as [names | state | message |]; simpl.
      - rewrite (sample_names_header_set w names R H). simpl. eauto.
      - by_role R. rewrite (empty_cons _ H), P. simpl. eauto.
      - rewrite (sample_text_line w message R). simpl.
        eexists. split; [reflexivity|]. split; [exact R|]. split; [reflexivity|].
        rewrite P.
        pose proof (adaptation_step_table PROCESSING_ADAPTATION message) as T.
        inversion T as [| | m' Hb | m' Hb | |]; subst; [|reflexivity].
        exfalso. apply (N message); [now left | exact Hb].
      - unfold operator_call. simpl. eauto. }
    destruct Hsame as (w1 & D & R1 & H1 & P1).
    destruct (IH w1 R1) as (w' & Hrun & P' & H' & T'); auto.
    { now rewrite H1. }
    exists w'. simpl. rewrite D.
    split; [exact Hrun|]. split; [exact P'|]. split; [congruence | exact T'].
Qed.

Lemma adaptation_waits_for_diagonal_line_witness :
  let w := mkWriter [] "sample_writer:" [] ["lp__"; "y"] PROCESSING_ADAPTATION in
  let events := [text_line "Step size = 0.8";
                 text_line "Elements of inverse mass matrix:";
                 text_line "0.961989"] in
  exists w' : socket_writer,
    run w events = Some w'
    /\ deliver w' (value_vector [1.5%float; 2.5%float]) =
       Thrown "Adaptation should have completed before sample writer writes a vector of doubles." w'.
Proof.
  cbv zeta.
  destruct (adaptation_waits_for_diagonal_line
              [text_line "Step size = 0.8";
               text_line "Elements of inverse mass matrix:";
               text_line "0.961989"]
              (mkWriter [] "sample_writer:" [] ["lp__"; "y"] PROCESSING_ADAPTATION)
              eq_refl ltac:(discriminate) eq_refl)
    as (w' & Hrun & _ & _ & T).
  - intros m [E | [E | [E | []]]]; inversion E; subst; intros B;
      apply prefix_begins_with in B; discriminate B.
  - exists w'. split; [exact Hrun | apply T].
Defined.

(** X11. Once the header of a sample or diagnostic writer holds a name, no
    sequence of events changes it again, whatever the events are and
    whether they return or throw. *)
Theorem header_fixed_once_set (events : list event) (w w' : socket_writer) :
  run w events = Some w' ->
  header w <> [] ->
  header w' = header w.
Proof.
  revert w. induction events as [|e rest IH]; intros w H N; simpl in H.
  - now inversion H.
  - pose proof (deliver_keeps_set_header w e N) as K.
    destruct (object_after (deliver w e)) as [w1|]; [|discriminate H].
    destruct K as [_ K]. rewrite <- K. apply IH; [exact H | now rewrite K].
Qed.

Lemma header_fixed_once_set_witness :
  let w := mkWriter [] "diagnostic_writer:" ["a"; "b"] [] BEFORE_PROCESSING_ADAPTATION in
  let events := [name_vector ["c"]; value_vector [1.5%float; 2.5%float];
                 text_line "note"; name_vector []] in
  exists w' : socket_writer,
    run w events = Some w' /\ header w' = ["a"; "b"].
Proof.
  cbv zeta. eexists. split; [reflexivity|].
  apply (header_fixed_once_set
           [name_vector ["c"]; value_vector [1.5%float; 2.5%float];
            text_line "note"; name_vector []]
           (mkWriter [] "diagnostic_writer:" ["a"; "b"] [] BEFORE_PROCESSING_ADAPTATION)
           _ eq_refl).
  discriminate.
Defined.

Lemma headered_values_sending (sent : bool) (w : socket_writer) (state : list float) :
  message_prefix_ w = "diagnostic_writer:" \/ message_prefix_ w = "sample_writer:" ->
  header w <> [] ->
  (message_prefix_ w = "sample_writer:" -> ~ adapting w) ->
  operator_call_state_sending sent w state =
  match add_named_features (header w) state (mkMessage (role_topic w) []) with
  | None => reads_out_of_range
  | Some m => try_send_message sent m w
  end.
Proof.
  unfold header, role_topic. intros [R | R] H A; rewrite R in H; simpl in H;
    unfold operator_call_state_sending; rewrite R; simpl.
  - now rewrite (empty_cons _ H).
  - now rewrite (empty_cons _ H), (not_adapting w (A R)).
Qed.

Lemma run_draws_sending (draws : list (list float * bool)) :
  forall w : socket_writer,
    message_prefix_ w = "diagnostic_writer:" \/ message_prefix_ w = "sample_writer:" ->
    header w <> [] ->
    (message_prefix_ w = "sample_writer:" -> ~ adapting w) ->
    Forall (fun d => List.length (header w) <= List.length (fst d)) draws ->
    run_sending w (map (fun d => (value_vector (fst d), snd d)) draws)
    = Some (mkWriter
              (socket w ++ map (fun d => mkMessage (role_topic w)
                                           (zipped_features (header w) (fst d)))
                             (filter snd draws))
              (message_prefix_ w) (diagnostic_fields_ w) (sample_fields_ w)
              (processing_adaptation_state_ w)).
Proof.
  induction draws as [|[v sent] draws IH]; intros w R H A F.
  - simpl. rewrite app_nil_r. now destruct w.
  - inversion F as [|d' draws' Lv F']; subst. simpl in Lv.
    cbn [map run_sending deliver_sending fst snd].
    rewrite (headered_values_sending sent w v R H A).
    rewrite add_named_features_in_range by exact Lv.
    cbn [feature topic app].
    set (m := mkMessage (role_topic w) (zipped_features (header w) v)).
    destruct sent; cbn [try_send_message object_left filter snd map].
    + assert (Hh : header (send_message m w) = header w) by reflexivity.
      assert (Ht : role_topic (send_message m w) = role_topic w) by reflexivity.
      rewrite (IH (send_message m w)); try assumption.
      rewrite Hh, Ht. simpl. now rewrite <- app_assoc.
    + now rewrite (IH w).
Qed.

(** X12. The tabular stream. On a freshly constructed sample or diagnostic
    writer, a header with at least one name followed by any number of value
    vectors, each at least as long as the header, meets no guard: the
    header event sends nothing, and at the end the socket holds exactly one
    message for each value vector whose send succeeded, in order, each the
    header zipped with that vector under the topic of the role. A value
    vector whose send failed leaves no trace, and the header and the
    adaptation state are not disturbed by it. *)
Theorem header_then_draws_sent
    (message_prefix : string) (names : list string) (sent : bool)
    (draws : list (list float * bool)) :
  message_prefix = "diagnostic_writer:" \/ message_prefix = "sample_writer:" ->
  names <> [] ->
  Forall (fun d => List.length names <= List.length (fst d)) draws ->
  exists w' : socket_writer,
    run_sending (socket_writer_new message_prefix)
      ((name_vector names, sent) :: map (fun d => (value_vector (fst d), snd d)) draws)
    = Some w'
    /\ socket w' = map (fun d => mkMessage (role_topic w') (zipped_features names (fst d)))
                     (filter snd draws)
    /\ header w' = names
    /\ message_prefix_ w' = message_prefix
    /\ processing_adaptation_state_ w' = BEFORE_PROCESSING_ADAPTATION.
Proof.
  intros R N F. cbn [run_sending deliver_sending].
  assert (A : forall w : socket_writer,
             processing_adaptation_state_ w = BEFORE_PROCESSING_ADAPTATION ->
             message_prefix_ w = "sample_writer:" -> ~ adapting w)
    by (intros w B _ [A | A]; congruence).
  destruct R as [-> | ->];
    unfold operator_call_names_sending; simpl; rewrite push_back_all_app; simpl;
    rewrite run_draws_sending; auto;
    eexists; (split; [reflexivity|]); repeat split.
Qed.

Lemma header_then_draws_sent_witness :
  ("sample_writer:" = "diagnostic_writer:" \/ "sample_writer:" = "sample_writer:")
  /\ ["lp__"; "y"] <> []
  /\ exists w' : socket_writer,
       run_sending (socket_writer_new "sample_writer:")
         [(name_vector ["lp__"; "y"], true);
          (value_vector [1.5%float; 2.5%float], true);
          (value_vector [3.5%float; 4.5%float], false);
          (value_vector [5.5%float; 6.5%float; 7.5%float], true)] = Some w'
       /\ socket w' = [mkMessage (Some WriterMessage_Topic_SAMPLE)
                         [mkFeature (Some "lp__") (double_list [1.5%float]);
                          mkFeature (Some "y") (double_list [2.5%float])];
                       mkMessage (Some WriterMessage_Topic_SAMPLE)
                         [mkFeature (Some "lp__") (double_list [5.5%float]);
                          mkFeature (Some "y") (double_list [6.5%float])]].
Proof.
  split; [right; reflexivity|]. split; [discriminate|].
  destruct (header_then_draws_sent "sample_writer:" ["lp__"; "y"] true
              [([1.5%float; 2.5%float], true);
               ([3.5%float; 4.5%float], false);
               ([5.5%float; 6.5%float; 7.5%float], true)]
              (or_intror eq_refl) ltac:(discriminate))
    as (w' & Hrun & Hs & _ & Hp & _).
  - repeat constructor.
  - exists w'. split; [exact Hrun|].
    rewrite Hs. unfold role_topic. rewrite Hp. reflexivity.
Defined.

(** ** The adaptation report as a whole *)






(** X14. The adaptation state never goes back, whatever the events: over any
    sequence of events of any kind, on any writer, the state at the end is
    not below the state at the start in the order BEFORE < PROCESSING <
    FINAL_MESSAGE < AFTER; in particular a writer in AFTER stays in AFTER. *)
Theorem adaptation_state_never_goes_back
    (events : list event) (w w' : socket_writer) :
  run w events = Some w' ->
  state_le (processing_adaptation_state_ w) (processing_adaptation_state_ w')
  /\ (processing_adaptation_state_ w = AFTER_PROCESSING_ADAPTATION ->
      processing_adaptation_state_ w' = AFTER_PROCESSING_ADAPTATION).
Proof.
  intros H.
  assert (L : state_le (processing_adaptation_state_ w)
                       (processing_adaptation_state_ w')).
  { revert w H. induction events as [|e rest IH]; intros w H; simpl in H.
    - inversion H; subst. apply state_le_refl.
    - destruct (object_after (deliver w e)) as [w1|] eqn:D; [|discriminate H].
      apply (state_le_trans _ (processing_adaptation_state_ w1)); [|now apply IH].
      destruct (deliver_state_step w w1 e D) as [S | (m & _ & S)]; rewrite S.
      + apply state_le_refl.
      + apply (transition_table_advances _ _ m), adaptation_step_table. }
  split; [exact L|].
  intros A. unfold state_le in L. rewrite A in L.
  destruct (processing_adaptation_state_ w'); simpl in L; try lia. reflexivity.
Qed.

Lemma adaptation_state_never_goes_back_witness :
  let w := mkWriter [] "sample_writer:" [] ["lp__"] AFTER_PROCESSING_ADAPTATION in
  exists w' : socket_writer,
    run w [text_line "Adaptation terminated"; name_vector ["y"];
           value_vector [1.5%float]; text_line "Diagonal elements of inverse mass matrix:"]
    = Some w'
    /\ processing_adaptation_state_ w' = AFTER_PROCESSING_ADAPTATION.
Proof.
  cbv zeta. eexists. split; [reflexivity|].
  apply (proj2 (adaptation_state_never_goes_back
                  [text_line "Adaptation terminated"; name_vector ["y"];
                   value_vector [1.5%float];
                   text_line "Diagonal elements of inverse mass matrix:"]
                  (mkWriter [] "sample_writer:" [] ["lp__"] AFTER_PROCESSING_ADAPTATION)
                  _ eq_refl)).
  reflexivity.
Defined.

(** ** Framing *)

Section Varint.

Local Open Scope Z_scope.

(** The continuation byte of a value: its low seven bits under a set high
    bit. *)
Lemma continuation_byte (v : Z) :
  Z.land (Z.lor v 128) 255 = v mod 128 + 128.
Proof.
  assert (E : Z.land (Z.lor v 128) 255 = Z.lor (Z.land v 127) 128).
  { apply Z.bits_inj'. intros n _.
    change 255 with (Z.lor 127 128).
    rewrite !Z.land_spec, !Z.lor_spec, Z.land_spec.
    destruct (Z.testbit v n), (Z.testbit 127 n), (Z.testbit 128 n); reflexivity. }
  rewrite E.
  rewrite <- Z.lxor_lor, <- Z.add_nocarry_lxor.
  - change 127 with (Z.ones 7). now rewrite Z.land_ones by lia.
  - rewrite <- Z.land_assoc. change (Z.land 127 128) with 0. apply Z.land_0_r.
  - rewrite <- Z.land_assoc. change (Z.land 127 128) with 0. apply Z.land_0_r.
Qed.

Lemma low_seven_bits (b : Z) : Z.land b 127 = b mod 128.
Proof. change 127 with (Z.ones 7). now rewrite Z.land_ones by lia. Qed.

Lemma continuation_step (v : Z) :
  0 <= v ->
  Z.land (v mod 128 + 128) 127 + Z.shiftl (Z.shiftr v 7) 7 = v.
Proof.
  intros P.
  rewrite low_seven_bits, Z.shiftl_mul_pow2, Z.shiftr_div_pow2 by lia.
  change (2 ^ 7) with 128.
  replace (v mod 128 + 128) with (v mod 128 + 1 * 128) by lia.
  rewrite Z.mod_add, Z.mod_mod by lia.
  pose proof (Z.div_mod v 128). lia.
Qed.

Lemma read_write_varint (fuel : nat) :
  forall (v : Z) (rest : list Z),
    0 <= v < 2 ^ (7 * Z.of_nat (S fuel)) ->
    read_varint (S fuel) (WriteVarint (S fuel) v ++ rest) = Some (v, rest).
Proof.
  induction fuel as [|fuel IH]; intros v rest B.
  - change (2 ^ (7 * Z.of_nat 1)) with 128 in B.
    cbn [WriteVarint].
    replace (128 <=? v) with false by (symmetry; apply Z.leb_gt; lia).
    cbn [app read_varint].
    now replace (128 <=? v) with false by (symmetry; apply Z.leb_gt; lia).
  - change (WriteVarint (S (S fuel)) v)
      with (if 128 <=? v
            then Z.land (Z.lor v 128) 255 :: WriteVarint (S fuel) (Z.shiftr v 7)
            else [v]).
    destruct (128 <=? v) eqn:C.
    + apply Z.leb_le in C. rewrite continuation_byte.
      assert (M : 0 <= v mod 128 < 128) by (apply Z.mod_pos_bound; lia).
      change (read_varint (S (S fuel))
                ((v mod 128 + 128 :: WriteVarint (S fuel) (Z.shiftr v 7)) ++ rest))
        with (if 128 <=? v mod 128 + 128
              then match read_varint (S fuel)
                           (WriteVarint (S fuel) (Z.shiftr v 7) ++ rest) with
                   | Some (v', rest') =>
                       Some (Z.land (v mod 128 + 128) 127 + Z.shiftl v' 7, rest')
                   | None => None
                   end
              else Some (v mod 128 + 128, WriteVarint (S fuel) (Z.shiftr v 7) ++ rest)).
      replace (128 <=? v mod 128 + 128) with true
        by (symmetry; apply Z.leb_le; lia).
      rewrite IH.
      * now rewrite continuation_step by lia.
      * rewrite Z.shiftr_div_pow2 by lia. change (2 ^ 7) with 128.
        split; [apply Z.div_pos; lia|].
        apply Z.div_lt_upper_bound; [lia|].
        replace (7 * Z.of_nat (S (S fuel))) with (7 + 7 * Z.of_nat (S fuel)) in B by lia.
        rewrite Z.pow_add_r in B by lia. change (2 ^ 7) with 128 in B. lia.
    + cbn [app read_varint]. now rewrite C.
Qed.

Lemma WriteVarint_length (fuel : nat) :
  forall v : Z,
    (1 <= List.length (WriteVarint (S fuel) v) <= S fuel)%nat.
Proof.
  induction fuel as [|fuel IH]; intros v.
  - cbn [WriteVarint]. destruct (128 <=? v); simpl; lia.
  - change (WriteVarint (S (S fuel)) v)
      with (if 128 <=? v
            then Z.land (Z.lor v 128) 255 :: WriteVarint (S fuel) (Z.shiftr v 7)
            else [v]).
    destruct (128 <=? v); [|simpl; lia].
    specialize (IH (Z.shiftr v 7)). cbn [List.length]. lia.
Qed.

End Varint.

Section Framing.

Variable SerializeToCodedStream : WriterMessage -> list Z.

Lemma stream_buffer_cons (m : WriterMessage) :
  exists (b : Z) (bytes : list Z),
    stream_buffer SerializeToCodedStream m = b :: bytes.
Proof.
  unfold stream_buffer, WriteVarint32.
  pose proof (WriteVarint_length 4
                (ByteSizeLong SerializeToCodedStream m mod 2 ^ 32)%Z) as L.
  destruct (WriteVarint 5 _) as [|b prefix]; [simpl in L; lia|].
  simpl. eauto.
Qed.

Lemma read_record_stream_buffer (m : WriterMessage) (rest : list Z) :
  (ByteSizeLong SerializeToCodedStream m < 2 ^ 32)%Z ->
  read_record (stream_buffer SerializeToCodedStream m ++ rest)
  = Some (SerializeToCodedStream m, rest).
Proof.
  intros B. unfold read_record, stream_buffer, WriteVarint32.
  assert (P : (0 <= ByteSizeLong SerializeToCodedStream m)%Z)
    by (unfold ByteSizeLong; lia).
  rewrite Z.mod_small by lia.
  rewrite <- app_assoc.
  rewrite (read_write_varint 4) by (change (2 ^ (7 * Z.of_nat 5))%Z with (2 ^ 35)%Z; lia).
  unfold ByteSizeLong in *.
  replace (Z.of_nat (List.length (SerializeToCodedStream m ++ rest))
           <? Z.of_nat (List.length (SerializeToCodedStream m)))%Z with false
    by (symmetry; apply Z.ltb_ge; rewrite length_app; lia).
  rewrite Nat2Z.id.
  rewrite firstn_app, Nat.sub_diag, firstn_all. simpl. rewrite app_nil_r.
  rewrite skipn_app, Nat.sub_diag, skipn_all. reflexivity.
Qed.

(** X15. Framing round trip. For a message whose serialized length is below
    2^32, the buffer [send_message] hands to the socket, followed by any
    further bytes, is read back by a length-prefixed reader as exactly the
    serialized message, with exactly the further bytes left over. *)
Theorem record_round_trip (m : WriterMessage) (rest : list Z) :
  (ByteSizeLong SerializeToCodedStream m < 2 ^ 32)%Z ->
  read_record (stream_buffer SerializeToCodedStream m ++ rest)
  = Some (SerializeToCodedStream m, rest).
Proof. exact (read_record_stream_buffer m rest). Qed.

Lemma read_records_buffers (messages : list WriterMessage) :
  Forall (fun m => (ByteSizeLong SerializeToCodedStream m < 2 ^ 32)%Z) messages ->
  read_records (List.length messages)
    (List.concat (map (stream_buffer SerializeToCodedStream) messages))
  = Some (map SerializeToCodedStream messages).
Proof.
  induction messages as [|m messages IH]; intros F; [reflexivity|].
  inversion F as [|m' messages' B F']; subst.
  cbn [map List.concat List.length].
  destruct (stream_buffer_cons m) as (b & bytes & E).
  assert (R := read_record_stream_buffer m
                 (List.concat (map (stream_buffer SerializeToCodedStream) messages)) B).
  rewrite E in *. cbn [app read_records] in *.
  rewrite R. now rewrite (IH F').
Qed.

(** X16. The stream on the socket. When every message a writer has sent
    serializes to fewer than 2^32 bytes, the bytes handed to the socket read
    back, record after record, as exactly the serialized messages in the
    order they were sent, and the stream ends at the end of the last
    record. *)
Theorem stream_round_trip (w : socket_writer) :
  Forall (fun m => (ByteSizeLong SerializeToCodedStream m < 2 ^ 32)%Z) (socket w) ->
  read_records (List.length (socket w)) (handed_to_send SerializeToCodedStream w)
  = Some (map SerializeToCodedStream (socket w)).
Proof. apply read_records_buffers. Qed.

(** X17. Silence is silence: the socket has been handed no byte at all
    exactly when no message was sent; every message sent puts at least the
    byte of its length on the wire, even when it serializes to nothing. *)
Theorem no_bytes_iff_no_message (w : socket_writer) :
  handed_to_send SerializeToCodedStream w = [] <-> socket w = [].
Proof.
  unfold handed_to_send. split.
  - destruct (socket w) as [|m rest]; [reflexivity|].
    cbn [map List.concat].
    destruct (stream_buffer_cons m) as (b & bytes & ->). discriminate.
  - now intros ->.
Qed.

End Framing.

Lemma no_bytes_iff_no_message_witness :
  let serialize := fun _ : WriterMessage => @nil Z in
  let w := mkWriter [mkMessage (Some WriterMessage_Topic_INITIALIZATION)
                       [mkFeature None (double_list [])]]
             "init_writer:" [] [] BEFORE_PROCESSING_ADAPTATION in
  handed_to_send serialize w = [0%Z] /\ socket w <> [].
Proof.
  cbv zeta. split; [reflexivity|].
  intros E.
  apply (proj2 (no_bytes_iff_no_message (fun _ : WriterMessage => @nil Z) _)) in E.
  discriminate E.
Defined.

Lemma record_round_trip_witness :
  let serialize := fun m : WriterMessage => repeat 7%Z (List.length (feature m)) in
  let m := mkMessage (Some WriterMessage_Topic_SAMPLE)
             [mkFeature (Some "lp__") (double_list [1.5%float]);
              mkFeature (Some "y") (double_list [2.5%float])] in
  (ByteSizeLong serialize m < 2 ^ 32)%Z
  /\ stream_buffer serialize m = [2; 7; 7]%Z
  /\ read_record (stream_buffer serialize m ++ [1; 9]%Z) = Some ([7; 7]%Z, [1; 9]%Z).
Proof.
  cbv zeta. split; [reflexivity|]. split; [reflexivity|].
  apply (record_round_trip
           (fun m : WriterMessage => repeat 7%Z (List.length (feature m)))
           (mkMessage (Some WriterMessage_Topic_SAMPLE)
              [mkFeature (Some "lp__") (double_list [1.5%float]);
               mkFeature (Some "y") (double_list [2.5%float])])
           [1; 9]%Z).
  reflexivity.
Defined.

Lemma stream_round_trip_witness :
  let serialize := fun m : WriterMessage => repeat 7%Z (List.length (feature m)) in
  exists w : socket_writer,
    run (socket_writer_new "sample_writer:")
      [name_vector ["lp__"; "y"]; text_line "note";
       value_vector [1.5%float; 2.5%float]] = Some w
    /\ Forall (fun m => (ByteSizeLong serialize m < 2 ^ 32)%Z) (socket w)
    /\ handed_to_send serialize w = [1; 7; 2; 7; 7]%Z
    /\ read_records 2 (handed_to_send serialize w) = Some [[7]; [7; 7]]%Z.
Proof.
  cbv zeta. eexists. split; [reflexivity|].
  assert (F : Forall
                (fun m => (ByteSizeLong
                             (fun m : WriterMessage => repeat 7%Z (List.length (feature m)))
                             m < 2 ^ 32)%Z)
                [mkMessage (Some WriterMessage_Topic_SAMPLE)
                   [mkFeature None (bytes_list ["note"])];
                 mkMessage (Some WriterMessage_Topic_SAMPLE)
                   [mkFeature (Some "lp__") (double_list [1.5%float]);
                    mkFeature (Some "y") (double_list [2.5%float])]])
    by (repeat constructor).
  split; [exact F|]. split; [reflexivity|].
  exact (stream_round_trip
           (fun m : WriterMessage => repeat 7%Z (List.length (feature m)))
           (mkWriter
              [mkMessage (Some WriterMessage_Topic_SAMPLE)
                 [mkFeature None (bytes_list ["note"])];
               mkMessage (Some WriterMessage_Topic_SAMPLE)
                 [mkFeature (Some "lp__") (double_list [1.5%float]);
                  mkFeature (Some "y") (double_list [2.5%float])]]
              "sample_writer:" [] ["lp__"; "y"] BEFORE_PROCESSING_ADAPTATION)
           F).
Defined.
